(** * SageQuoteFlow: the playback scheduler of [App.tsx]

    A shallow embedding of the React component [App] (src/App.tsx), of the
    settings form that feeds it (src/components/SettingsForm.tsx), of the
    speech client [generateSpeech] and of the types of src/types.ts,
    followed by the properties of the scheduler.

    The component is modelled as a labelled transition system.  One step is
    one run of a handler, of an effect or of an asynchronous continuation;
    the state updates such a run issues are committed together, as React
    batches them, so every state of the system is a rendered snapshot. *)

From Stdlib Require Import List ZArith NArith PArith Bool Lia Arith.
From Stdlib Require String Ascii DecimalString DecimalNat.
Import ListNotations String.StringSyntax.

Local Open Scope Z_scope.

(** ** JavaScript strings

    A JavaScript string is a sequence of UTF-16 code units. *)
Module JSString.
Import String Ascii DecimalString.

Definition codeunit := N.
Definition jsstring := list codeunit.

Definition of_string (s : string) : jsstring :=
  map N_of_ascii (list_ascii_of_string s).

Fixpoint eqb (a b : jsstring) : bool :=
  match a, b with
  | [], [] => true
  | x :: a', y :: b' => N.eqb x y && eqb a' b'
  | _, _ => false
  end.

(** [WhiteSpace] and [LineTerminator] of ECMAScript, the code units that
    [String.prototype.trim] strips. *)
Definition isWhiteSpace (c : codeunit) : bool :=
  existsb (N.eqb c)
    [9; 10; 11; 12; 13; 32; 160; 5760;
     8192; 8193; 8194; 8195; 8196; 8197; 8198; 8199; 8200; 8201; 8202;
     8232; 8233; 8239; 8287; 12288; 65279]%N.

Fixpoint trimStart (s : jsstring) : jsstring :=
  match s with
  | c :: s' => if isWhiteSpace c then trimStart s' else s
  | [] => []
  end.

Definition trimEnd (s : jsstring) : jsstring := rev (trimStart (rev s)).

(** [s.trim()] *)
Definition trim (s : jsstring) : jsstring := trimEnd (trimStart s).

Fixpoint startsWith (p s : jsstring) : bool :=
  match p, s with
  | [], _ => true
  | x :: p', y :: s' => N.eqb x y && startsWith p' s'
  | _ :: _, [] => false
  end.

(** [s.includes(p)] *)
Fixpoint includes (p s : jsstring) : bool :=
  startsWith p s ||
  match s with
  | [] => false
  | _ :: s' => includes p s'
  end.

(** Truthiness of an optional string: [undefined] and [''] are falsy. *)
Definition truthy (o : option jsstring) : bool :=
  match o with
  | Some (_ :: _) => true
  | _ => false
  end.

(** [o || d] for an optional string [o]. *)
Definition orElse (o : option jsstring) (d : jsstring) : jsstring :=
  match o with
  | Some (c :: s) => c :: s
  | _ => d
  end.

(** [`${n}`] for a natural number. *)
Definition of_nat (n : nat) : jsstring :=
  of_string (NilEmpty.string_of_uint (Nat.to_uint n)).

End JSString.
Import JSString.

(** ** src/types.ts *)

Record Quote := {
  id : jsstring;
  text : jsstring
}.

Inductive AppStatus := IDLE | PLAYING | PAUSED | ERROR.

Record AppSettings := {
  quoteCount : nat;
  manualQuotes : list jsstring;
  frequencyHours : Z
}.

Record PlaybackState := {
  currentQuoteIndex : nat;
  isAudioPlaying : bool;
  timeRemainingInInterval : Z;  (* in seconds *)
  totalQuotes : nat;
  lastError : option jsstring
}.

Definition AppStatus_eqb (a b : AppStatus) : bool :=
  match a, b with
  | IDLE, IDLE | PLAYING, PLAYING | PAUSED, PAUSED | ERROR, ERROR => true
  | _, _ => false
  end.

(** ** The speech client (geminiService) *)
Module GeminiService.
Import String.

(** What [catch (error: any)] receives: a value with an optional
    [message]. *)
Record JSError := { message : option jsstring }.

Definition mkError (s : string) : JSError :=
  {| message := Some (of_string s) |}.

(** How the remote call of [generateSpeech] ends: a response carrying
    audio data, a response without it, or an exception. *)
Inductive ApiOutcome :=
| ApiAudio
| ApiNoAudio
| ApiThrows (e : JSError).

(** The [catch] block of [generateSpeech]. *)
Definition rethrow (e : JSError) : JSError :=
  match message e with
  | Some m =>
      if includes (of_string "API key") m
      then mkError "Invalid or missing API Key."
      else e
  | None => e
  end.

(** [generateSpeech(text)]: [inl tt] is the decoded audio buffer, [inr e]
    the rejection. *)
Definition generateSpeech (o : ApiOutcome) : unit + JSError :=
  match o with
  | ApiAudio => inl tt
  | ApiNoAudio => inr (rethrow (mkError "No audio data returned. Check API Key."))
  | ApiThrows e => inr (rethrow e)
  end.

End GeminiService.
Import GeminiService.

(** ** src/components/SettingsForm.tsx *)
Module SettingsForm.

Definition withQuotes (st : AppSettings) (qs : list jsstring) : AppSettings :=
  {| quoteCount := quoteCount st; manualQuotes := qs;
     frequencyHours := frequencyHours st |}.

(** The effect that keeps [manualQuotes] as long as [quoteCount]. *)
Definition syncQuotes (st : AppSettings) : AppSettings :=
  let n := length (manualQuotes st) in
  if Nat.eqb n (quoteCount st) then st
  else if Nat.ltb n (quoteCount st)
       then withQuotes st (manualQuotes st ++ repeat [] (quoteCount st - n))
       else withQuotes st (firstn (quoteCount st) (manualQuotes st)).

Fixpoint setNth (i : nat) (v : jsstring) (l : list jsstring) : list jsstring :=
  match i, l with
  | O, _ :: l' => v :: l'
  | S i', x :: l' => x :: setNth i' v l'
  | _, [] => []
  end.

(** [handleQuoteChange(index, value)]; the form calls it with the index
    of a rendered text area, that is [index < manualQuotes.length]. *)
Definition handleQuoteChange (index : nat) (value : jsstring)
    (st : AppSettings) : AppSettings :=
  withQuotes st (setNth index value (manualQuotes st)).

Definition updateCount (newCount : nat) (st : AppSettings) : AppSettings :=
  {| quoteCount := newCount; manualQuotes := manualQuotes st;
     frequencyHours := frequencyHours st |}.

(** The [-] and [+] buttons. *)
Definition decrement (st : AppSettings) : AppSettings :=
  updateCount (Nat.max 1 (quoteCount st - 1)) st.

Definition increment (st : AppSettings) : AppSettings :=
  updateCount (Nat.min 20 (quoteCount st + 1)) st.

(** [handleChange('frequencyHours', parseInt(e.target.value))] *)
Definition handleFrequency (h : Z) (st : AppSettings) : AppSettings :=
  {| quoteCount := quoteCount st; manualQuotes := manualQuotes st;
     frequencyHours := h |}.

(** [isValid], which enables the start button. *)
Definition isValid (st : AppSettings) : bool :=
  existsb (fun q => Nat.ltb 0 (length (trim q))) (manualQuotes st).

(** What the user can do on the form.  The range input offers the hours
    1 to 5. *)
Inductive FormEvent :=
| QuoteChange (index : nat) (value : jsstring)
| Decrement
| Increment
| Frequency (h : Z).

Definition formEnabled (e : FormEvent) (st : AppSettings) : bool :=
  match e with
  | QuoteChange index _ => Nat.ltb index (length (manualQuotes st))
  | Frequency h => (1 <=? h) && (h <=? 5)
  | _ => true
  end.

(** The change of the settings an event brings, the length of the quote
    list being synchronised by the effect after the render. *)
Definition formStep (e : FormEvent) (st : AppSettings) : AppSettings :=
  match e with
  | QuoteChange index value => handleQuoteChange index value st
  | Decrement => syncQuotes (decrement st)
  | Increment => syncQuotes (increment st)
  | Frequency h => handleFrequency h st
  end.

End SettingsForm.

(** ** src/App.tsx *)
Module App.
Import SettingsForm.

(** Handles given out by the platform: interval timers (positive integers
    in browsers), buffer sources and pending promises. *)
Definition Handle := positive.
Bind Scope positive_scope with Handle.

(** A pending [generateSpeech(quote.text)] promise.  Its continuation is
    the rest of [playCurrentQuote]; [call_hours] is the
    [settings.frequencyHours] its [scheduleNextPlayback] closed over.
    The settings form is rendered in [IDLE] only and [playCurrentQuote]
    is rebuilt whenever [quotes] changes, so that value is the one of the
    settings at the moment of the call. *)
Record Call := {
  call_id : Handle;
  call_text : jsstring;
  call_hours : Z
}.

(** A started [AudioBufferSourceNode] whose [ended] event has not been
    dispatched yet, with the [settings.frequencyHours] its [onended]
    closure carries; [source_stopped] records that [stop()] was called. *)
Record Source := {
  source_id : Handle;
  source_hours : Z;
  source_stopped : bool
}.

(** The [useState] cells and [useRef] cells of the component, and what
    the platform holds for it: the suspension of the audio context, the
    pending promises, the sources whose [ended] event is still to come
    and the interval timers that are armed. *)
Record State := {
  status : AppStatus;
  settings : AppSettings;
  quotes : list Quote;
  playbackState : PlaybackState;
  isBuffering : bool;
  audioSourceRef : option Handle;
  intervalTimerRef : option Handle;
  nextPlayTimeRef : Z;
  isPausedRef : bool;
  ctxSuspended : bool;
  inflight : list Call;
  sources : list Source;
  timers : list Handle;
  nextHandle : Handle
}.

Definition with_currentQuoteIndex (v : nat) (p : PlaybackState) : PlaybackState :=
  {| currentQuoteIndex := v; isAudioPlaying := isAudioPlaying p;
     timeRemainingInInterval := timeRemainingInInterval p;
     totalQuotes := totalQuotes p; lastError := lastError p |}.

Definition with_isAudioPlaying (v : bool) (p : PlaybackState) : PlaybackState :=
  {| currentQuoteIndex := currentQuoteIndex p; isAudioPlaying := v;
     timeRemainingInInterval := timeRemainingInInterval p;
     totalQuotes := totalQuotes p; lastError := lastError p |}.

Definition with_timeRemainingInInterval (v : Z) (p : PlaybackState) : PlaybackState :=
  {| currentQuoteIndex := currentQuoteIndex p;
     isAudioPlaying := isAudioPlaying p; timeRemainingInInterval := v;
     totalQuotes := totalQuotes p; lastError := lastError p |}.

Definition with_totalQuotes (v : nat) (p : PlaybackState) : PlaybackState :=
  {| currentQuoteIndex := currentQuoteIndex p;
     isAudioPlaying := isAudioPlaying p;
     timeRemainingInInterval := timeRemainingInInterval p;
     totalQuotes := v; lastError := lastError p |}.

Definition with_lastError (v : option jsstring) (p : PlaybackState) : PlaybackState :=
  {| currentQuoteIndex := currentQuoteIndex p;
     isAudioPlaying := isAudioPlaying p;
     timeRemainingInInterval := timeRemainingInInterval p;
     totalQuotes := totalQuotes p; lastError := v |}.

Definition set_status (v : AppStatus) (s : State) : State :=
  {| status := v; settings := settings s; quotes := quotes s;
     playbackState := playbackState s; isBuffering := isBuffering s;
     audioSourceRef := audioSourceRef s;
     intervalTimerRef := intervalTimerRef s;
     nextPlayTimeRef := nextPlayTimeRef s; isPausedRef := isPausedRef s;
     ctxSuspended := ctxSuspended s; inflight := inflight s;
     sources := sources s; timers := timers s;
     nextHandle := nextHandle s |}.

Definition set_settings (v : AppSettings) (s : State) : State :=
  {| status := status s; settings := v; quotes := quotes s;
     playbackState := playbackState s; isBuffering := isBuffering s;
     audioSourceRef := audioSourceRef s;
     intervalTimerRef := intervalTimerRef s;
     nextPlayTimeRef := nextPlayTimeRef s; isPausedRef := isPausedRef s;
     ctxSuspended := ctxSuspended s; inflight := inflight s;
     sources := sources s; timers := timers s;
     nextHandle := nextHandle s |}.

Definition set_quotes (v : list Quote) (s : State) : State :=
  {| status := status s; settings := settings s; quotes := v;
     playbackState := playbackState s; isBuffering := isBuffering s;
     audioSourceRef := audioSourceRef s;
     intervalTimerRef := intervalTimerRef s;
     nextPlayTimeRef := nextPlayTimeRef s; isPausedRef := isPausedRef s;
     ctxSuspended := ctxSuspended s; inflight := inflight s;
     sources := sources s; timers := timers s;
     nextHandle := nextHandle s |}.

Definition set_playbackState (v : PlaybackState) (s : State) : State :=
  {| status := status s; settings := settings s; quotes := quotes s;
     playbackState := v; isBuffering := isBuffering s;
     audioSourceRef := audioSourceRef s;
     intervalTimerRef := intervalTimerRef s;
     nextPlayTimeRef := nextPlayTimeRef s; isPausedRef := isPausedRef s;
     ctxSuspended := ctxSuspended s; inflight := inflight s;
     sources := sources s; timers := timers s;
     nextHandle := nextHandle s |}.

Definition set_isBuffering (v : bool) (s : State) : State :=
  {| status := status s; settings := settings s; quotes := quotes s;
     playbackState := playbackState s; isBuffering := v;
     audioSourceRef := audioSourceRef s;
     intervalTimerRef := intervalTimerRef s;
     nextPlayTimeRef := nextPlayTimeRef s; isPausedRef := isPausedRef s;
     ctxSuspended := ctxSuspended s; inflight := inflight s;
     sources := sources s; timers := timers s;
     nextHandle := nextHandle s |}.

Definition set_audioSourceRef (v : option Handle) (s : State) : State :=
  {| status := status s; settings := settings s; quotes := quotes s;
     playbackState := playbackState s; isBuffering := isBuffering s;
     audioSourceRef := v; intervalTimerRef := intervalTimerRef s;
     nextPlayTimeRef := nextPlayTimeRef s; isPausedRef := isPausedRef s;
     ctxSuspended := ctxSuspended s; inflight := inflight s;
     sources := sources s; timers := timers s;
     nextHandle := nextHandle s |}.

Definition set_intervalTimerRef (v : option Handle) (s : State) : State :=
  {| status := status s; settings := settings s; quotes := quotes s;
     playbackState := playbackState s; isBuffering := isBuffering s;
     audioSourceRef := audioSourceRef s; intervalTimerRef := v;
     nextPlayTimeRef := nextPlayTimeRef s; isPausedRef := isPausedRef s;
     ctxSuspended := ctxSuspended s; inflight := inflight s;
     sources := sources s; timers := timers s;
     nextHandle := nextHandle s |}.

Definition set_nextPlayTimeRef (v : Z) (s : State) : State :=
  {| status := status s; settings := settings s; quotes := quotes s;
     playbackState := playbackState s; isBuffering := isBuffering s;
     audioSourceRef := audioSourceRef s;
     intervalTimerRef := intervalTimerRef s; nextPlayTimeRef := v;
     isPausedRef := isPausedRef s; ctxSuspended := ctxSuspended s;
     inflight := inflight s; sources := sources s; timers := timers s;
     nextHandle := nextHandle s |}.

Definition set_isPausedRef (v : bool) (s : State) : State :=
  {| status := status s; settings := settings s; quotes := quotes s;
     playbackState := playbackState s; isBuffering := isBuffering s;
     audioSourceRef := audioSourceRef s;
     intervalTimerRef := intervalTimerRef s;
     nextPlayTimeRef := nextPlayTimeRef s; isPausedRef := v;
     ctxSuspended := ctxSuspended s; inflight := inflight s;
     sources := sources s; timers := timers s;
     nextHandle := nextHandle s |}.

Definition set_ctxSuspended (v : bool) (s : State) : State :=
  {| status := status s; settings := settings s; quotes := quotes s;
     playbackState := playbackState s; isBuffering := isBuffering s;
     audioSourceRef := audioSourceRef s;
     intervalTimerRef := intervalTimerRef s;
     nextPlayTimeRef := nextPlayTimeRef s; isPausedRef := isPausedRef s;
     ctxSuspended := v; inflight := inflight s; sources := sources s;
     timers := timers s; nextHandle := nextHandle s |}.

Definition set_inflight (v : list Call) (s : State) : State :=
  {| status := status s; settings := settings s; quotes := quotes s;
     playbackState := playbackState s; isBuffering := isBuffering s;
     audioSourceRef := audioSourceRef s;
     intervalTimerRef := intervalTimerRef s;
     nextPlayTimeRef := nextPlayTimeRef s; isPausedRef := isPausedRef s;
     ctxSuspended := ctxSuspended s; inflight := v; sources := sources s;
     timers := timers s; nextHandle := nextHandle s |}.

Definition set_sources (v : list Source) (s : State) : State :=
  {| status := status s; settings := settings s; quotes := quotes s;
     playbackState := playbackState s; isBuffering := isBuffering s;
     audioSourceRef := audioSourceRef s;
     intervalTimerRef := intervalTimerRef s;
     nextPlayTimeRef := nextPlayTimeRef s; isPausedRef := isPausedRef s;
     ctxSuspended := ctxSuspended s; inflight := inflight s; sources := v;
     timers := timers s; nextHandle := nextHandle s |}.

Definition set_timers (v : list Handle) (s : State) : State :=
  {| status := status s; settings := settings s; quotes := quotes s;
     playbackState := playbackState s; isBuffering := isBuffering s;
     audioSourceRef := audioSourceRef s;
     intervalTimerRef := intervalTimerRef s;
     nextPlayTimeRef := nextPlayTimeRef s; isPausedRef := isPausedRef s;
     ctxSuspended := ctxSuspended s; inflight := inflight s;
     sources := sources s; timers := v; nextHandle := nextHandle s |}.

Definition set_nextHandle (v : Handle) (s : State) : State :=
  {| status := status s; settings := settings s; quotes := quotes s;
     playbackState := playbackState s; isBuffering := isBuffering s;
     audioSourceRef := audioSourceRef s;
     intervalTimerRef := intervalTimerRef s;
     nextPlayTimeRef := nextPlayTimeRef s; isPausedRef := isPausedRef s;
     ctxSuspended := ctxSuspended s; inflight := inflight s;
     sources := sources s; timers := timers s; nextHandle := v |}.

Definition initialState : State :=
  {| status := IDLE;
     settings := {| quoteCount := 1; manualQuotes := [[]];
                    frequencyHours := 1 |};
     quotes := [];
     playbackState := {| currentQuoteIndex := 0; isAudioPlaying := false;
                         timeRemainingInInterval := 0; totalQuotes := 0;
                         lastError := None |};
     isBuffering := false;
     audioSourceRef := None;
     intervalTimerRef := None;
     nextPlayTimeRef := 0;
     isPausedRef := false;
     ctxSuspended := false;
     inflight := [];
     sources := [];
     timers := [];
     nextHandle := 1%positive |}.

(** *** Platform primitives *)

Definition findCall (c : Handle) (l : list Call) : option Call :=
  find (fun k => Pos.eqb (call_id k) c) l.

Definition removeCall (c : Handle) (l : list Call) : list Call :=
  filter (fun k => negb (Pos.eqb (call_id k) c)) l.

Definition findSource (h : Handle) (l : list Source) : option Source :=
  find (fun k => Pos.eqb (source_id k) h) l.

(** [source.stop()]: the source falls silent.  Web Audio dispatches
    [ended] both when the buffer has been played and after [stop()]; the
    source stays listed until then. *)
Definition stopSource (h : Handle) (l : list Source) : list Source :=
  map (fun k =>
         if Pos.eqb (source_id k) h
         then {| source_id := source_id k; source_hours := source_hours k;
                 source_stopped := true |}
         else k) l.

(** The [ended] event of a source has been dispatched. *)
Definition removeSource (h : Handle) (l : list Source) : list Source :=
  filter (fun k => negb (Pos.eqb (source_id k) h)) l.

(** Whether [ended] can be dispatched: the source was stopped, or it plays
    to its end, for which the context must be running. *)
Definition canEnd (src : Source) (suspended : bool) : bool :=
  source_stopped src || negb suspended.

(** Modelled from the spec: [getAudioContext] of services/audioUtils, which
    is not among the sources at hand, hands out the audio context of the
    page, the Audio Output Sink of the specification; obtaining it changes
    nothing, and [suspend()] and [resume()] halt and release all output. *)
Definition getAudioContext (s : State) : State := s.

Definition suspend (s : State) : State := set_ctxSuspended true s.

Definition resume (s : State) : State := set_ctxSuspended false s.

(** [window.clearInterval(t)] *)
Definition clearInterval (t : Handle) (l : list Handle) : list Handle :=
  filter (fun k => negb (Pos.eqb k t)) l.

Definition timerArmed (t : Handle) (l : list Handle) : bool :=
  existsb (Pos.eqb t) l.

(** [Math.ceil(x / d)] on integers, for [0 < d]. *)
Definition ceilDiv (x d : Z) : Z := - ((- x) / d).

(** *** Handlers *)

(** [validQuotes.map((text, i) => ({ id: `q-${i}`, text }))] *)
Fixpoint toQuotes (i : nat) (l : list jsstring) : list Quote :=
  match l with
  | [] => []
  | t :: l' =>
      {| id := of_string "q-" ++ of_nat i; text := t |} :: toQuotes (S i) l'
  end.

Definition validQuotes (st : AppSettings) : list jsstring :=
  filter (fun q => negb (JSString.eqb (trim q) [])) (manualQuotes st).

Definition handleStart (s : State) : State :=
  let valid := validQuotes (settings s) in
  if Nat.eqb (length valid) 0 then s
  else
    let newQuotes := toQuotes 0 valid in
    getAudioContext
      (set_isPausedRef false
        (set_status PLAYING
          (set_playbackState
             {| currentQuoteIndex := 0; isAudioPlaying := false;
                timeRemainingInInterval := 0; (* Start immediately *)
                totalQuotes := length newQuotes;
                lastError := None |}
             (set_quotes newQuotes s)))).

Definition stopAll (s : State) : State :=
  let s1 :=
    match audioSourceRef s with
    | Some src =>
        set_audioSourceRef None (set_sources (stopSource src (sources s)) s)
    | None => s
    end in
  let s2 :=
    match intervalTimerRef s1 with
    | Some t =>
        set_intervalTimerRef None (set_timers (clearInterval t (timers s1)) s1)
    | None => s1
    end in
  set_isBuffering false s2.

Definition handleReset (s : State) : State :=
  set_quotes [] (set_status IDLE (stopAll s)).

Definition handlePauseResume (s : State) : State :=
  match status s with
  | PLAYING | PAUSED =>
      if negb (isPausedRef s) then
        (* Pause *)
        suspend (getAudioContext (set_status PAUSED (set_isPausedRef true s)))
      else
        (* Resume *)
        let s1 :=
          resume (getAudioContext
                    (set_status PLAYING (set_isPausedRef false s))) in
        if truthy (lastError (playbackState s))
        then set_playbackState (with_lastError None (playbackState s1)) s1
        else s1
  | _ => s
  end.

(** *** Core loop *)

(** [playCurrentQuote] up to its [await]: the call is left pending. *)
Definition playCurrentQuote (s : State) : State :=
  if isPausedRef s then s
  else
    match nth_error (quotes s) (currentQuoteIndex (playbackState s)) with
    | None => s
    | Some quote =>
        let call := {| call_id := nextHandle s; call_text := text quote;
                       call_hours := frequencyHours (settings s) |} in
        set_nextHandle (Pos.succ (nextHandle s))
          (set_inflight (call :: inflight s)
            (set_playbackState (with_lastError None (playbackState s))
              (set_isBuffering true s)))
    end.

Definition scheduleNextPlayback (hours now : Z) (s : State) : State :=
  let intervalMs := hours * 3600 * 1000 in
  let s1 := set_nextPlayTimeRef (now + intervalMs) s in
  let s2 :=
    set_playbackState
      (with_timeRemainingInInterval (intervalMs / 1000) (playbackState s1))
      s1 in
  let s3 :=
    match intervalTimerRef s2 with
    | Some t => set_timers (clearInterval t (timers s2)) s2
    | None => s2
    end in
  set_nextHandle (Pos.succ (nextHandle s3))
    (set_timers (nextHandle s3 :: timers s3)
      (set_intervalTimerRef (Some (nextHandle s3)) s3)).

(** [source.onended] *)
Definition onended (src : Source) (now : Z) (s : State) : State :=
  let s1 := set_sources (removeSource (source_id src) (sources s)) s in
  let s2 := set_isBuffering false s1 in
  let s3 :=
    set_playbackState (with_isAudioPlaying false (playbackState s2)) s2 in
  scheduleNextPlayback (source_hours src) now s3.

(** [playCurrentQuote] after its [await], the promise being fulfilled. *)
Definition resolved (c : Call) (s : State) : State :=
  let s0 := set_inflight (removeCall (call_id c) (inflight s)) s in
  if isPausedRef s0 then
    set_isBuffering false s0 (* Stopped while buffering *)
  else
    let source := {| source_id := nextHandle s0;
                     source_hours := call_hours c;
                     source_stopped := false |} in
    let s1 :=
      set_nextHandle (Pos.succ (nextHandle s0))
        (set_sources (source :: sources s0)
          (set_audioSourceRef (Some (source_id source)) s0)) in
    set_isBuffering false
      (set_playbackState (with_isAudioPlaying true (playbackState s1)) s1).

(** The [catch] block of [playCurrentQuote]. *)
Definition rejected (c : Call) (error : JSError) (s : State) : State :=
  let s0 := set_inflight (removeCall (call_id c) (inflight s)) s in
  let s1 := set_isBuffering false s0 in
  let s2 :=
    set_playbackState
      (with_lastError
         (Some (orElse (message error) (of_string "Failed to generate audio")))
         (playbackState s1))
      s1 in
  set_status PAUSED (set_isPausedRef true s2).

(** The callback of [window.setInterval(..., 1000)].  [%] is taken on
    naturals; JavaScript yields [NaN] for a zero divisor, which no
    reachable tick meets: [totalQuotes] is positive whenever a timer is
    armed ([inv_fresh] below). *)
Definition tick (now : Z) (s : State) : State :=
  if isPausedRef s then
    set_nextPlayTimeRef (nextPlayTimeRef s + 1000) s
  else
    let remainingMs := nextPlayTimeRef s - now in
    let remainingSeconds := Z.max 0 (ceilDiv remainingMs 1000) in
    let s1 :=
      set_playbackState
        (with_timeRemainingInInterval remainingSeconds (playbackState s)) s in
    if remainingSeconds <=? 0 then
      let s2 :=
        match intervalTimerRef s1 with
        | Some t => set_timers (clearInterval t (timers s1)) s1
        | None => s1
        end in
      (* Advance Index Loop *)
      let prev := playbackState s2 in
      set_playbackState
        (with_timeRemainingInInterval 0
          (with_currentQuoteIndex
             ((currentQuoteIndex prev + 1) mod totalQuotes prev)%nat prev))
        s2
    else s1.

(** The condition of the effect that triggers playback. *)
Definition trigger (s : State) : bool :=
  AppStatus_eqb (status s) PLAYING
  && negb (isAudioPlaying (playbackState s))
  && (timeRemainingInInterval (playbackState s) =? 0)
  && negb (isBuffering s)
  && negb (truthy (lastError (playbackState s))).

Definition effect (s : State) : State :=
  if trigger s then playCurrentQuote s else s.

(** *** The transition system *)

Inductive Event :=
| Form (e : FormEvent)          (* onSettingsChange of the form *)
| Start                         (* onStart *)
| Reset                         (* onReset *)
| PauseResume                   (* onPauseResume *)
| Effect                        (* the playback effect after a render *)
| Settled (c : Handle) (o : ApiOutcome)  (* a promise settles *)
| Ended (src : Handle) (now : Z)         (* a source ends at time now *)
| Tick (t : Handle) (now : Z).           (* a timer fires at time now *)

(** The form is rendered when the status is [IDLE], the player
    otherwise; a promise settles once, the [ended] event of a source is
    dispatched once, a timer fires while it is armed.  The start button is
    disabled while [isValid] is false, a case in which [handleStart]
    returns at once. *)
Definition step (s : State) (ev : Event) : option State :=
  match ev with
  | Form e =>
      if AppStatus_eqb (status s) IDLE && formEnabled e (settings s)
      then Some (set_settings (formStep e (settings s)) s)
      else None
  | Start =>
      if AppStatus_eqb (status s) IDLE then Some (handleStart s) else None
  | Reset =>
      if AppStatus_eqb (status s) IDLE then None else Some (handleReset s)
  | PauseResume =>
      if AppStatus_eqb (status s) IDLE then None
      else Some (handlePauseResume s)
  | Effect => Some (effect s)
  | Settled c o =>
      match findCall c (inflight s) with
      | Some call =>
          match generateSpeech o with
          | inl _ => Some (resolved call s)
          | inr error => Some (rejected call error s)
          end
      | None => None
      end
  | Ended h now =>
      match findSource h (sources s) with
      | Some src =>
          if canEnd src (ctxSuspended s) then Some (onended src now s)
          else None
      | None => None
      end
  | Tick t now =>
      if timerArmed t (timers s) then Some (tick now s) else None
  end.

Fixpoint run (s : State) (tr : list Event) : option State :=
  match tr with
  | [] => Some s
  | ev :: tr' =>
      match step s ev with
      | Some s' => run s' tr'
      | None => None
      end
  end.

Definition reachable (s : State) : Prop :=
  exists tr, run initialState tr = Some s.

End App.
Import SettingsForm App.

(** ** The player (components/Player) *)
Module Player.

(** [n.toString().padStart(2, '0')] *)
Definition pad (n : nat) : jsstring :=
  let digits := of_nat n in
  repeat 48%N (2 - length digits) ++ digits.

(** [formatTime(totalSeconds)], for an integer number of seconds. *)
Definition formatTime (totalSeconds : Z) : jsstring :=
  if totalSeconds <? 0 then of_string "00:00:00"
  else
    let hours := totalSeconds / 3600 in
    let minutes := (totalSeconds mod 3600) / 60 in
    let seconds := totalSeconds mod 60 in
    pad (Z.to_nat hours) ++ of_string ":" ++ pad (Z.to_nat minutes)
      ++ of_string ":" ++ pad (Z.to_nat seconds).

(** [const currentQuote = quotes[playbackState.currentQuoteIndex]] and the
    text of the quote card,
    [currentQuote?.text || "No quote text available"]. *)
Definition quoteCard (quotes : list Quote) (p : PlaybackState) : jsstring :=
  orElse (option_map text (nth_error quotes (currentQuoteIndex p)))
         (of_string "No quote text available").

(** The badge [Quote {currentQuoteIndex + 1} of {quotes.length}]. *)
Definition badge (quotes : list Quote) (p : PlaybackState) : nat * nat :=
  (currentQuoteIndex p + 1, length quotes)%nat.

(** The loading overlay is rendered. *)
Definition showLoading (isBuffering : bool) : bool := isBuffering.

(** The error panel with its retry button is rendered. *)
Definition showError (p : PlaybackState) (isBuffering : bool) : bool :=
  truthy (lastError p) && negb isBuffering.

(** The countdown "Next Quote In" is rendered. *)
Definition showCountdown (p : PlaybackState) : bool :=
  (0 <? timeRemainingInInterval p)
  && negb (isAudioPlaying p)
  && negb (truthy (lastError p)).

(** "Reading aloud..." is rendered. *)
Definition showReading (p : PlaybackState) : bool := isAudioPlaying p.

(** The round button shows the pause icon; it shows the play icon
    otherwise. *)
Definition pauseIcon (p : PlaybackState) : bool :=
  isAudioPlaying p
  || ((0 <? timeRemainingInInterval p) && negb (truthy (lastError p))).

End Player.
Import Player.

(** The render of [App]: the settings form while the status is [IDLE], the
    player otherwise. *)
Definition playerMounted (s : State) : bool :=
  negb (AppStatus_eqb (status s) IDLE).

(** What is on the screen: a panel of the player is rendered when the
    player is mounted and the condition of the panel holds. *)
Definition errorPanelRendered (s : State) : bool :=
  playerMounted s && showError (playbackState s) (isBuffering s).

Definition loadingRendered (s : State) : bool :=
  playerMounted s && showLoading (isBuffering s).

Definition countdownRendered (s : State) : bool :=
  playerMounted s && showCountdown (playbackState s).

(** ** Vocabulary of the statements *)

(** The pause flag follows the status, the index stays below the number of
    quotes the session was started with, and nothing is pending before the
    first start. *)
Record Inv (s : State) : Prop := {
  inv_playing : status s = PLAYING -> isPausedRef s = false;
  inv_paused : status s = PAUSED -> isPausedRef s = true;
  inv_status : status s <> ERROR;
  inv_quotes : quotes s = [] \/
               length (quotes s) = totalQuotes (playbackState s);
  inv_fresh : totalQuotes (playbackState s) = 0%nat ->
              inflight s = [] /\ sources s = [] /\ timers s = [];
  inv_index : (0 < totalQuotes (playbackState s))%nat ->
              (currentQuoteIndex (playbackState s)
               < totalQuotes (playbackState s))%nat;
  inv_total : quotes s <> [] -> (0 < totalQuotes (playbackState s))%nat;
  inv_exclusive : isBuffering s && isAudioPlaying (playbackState s) = false
}.

(** The phases of the playback cycle: waiting for the effect (or idle),
    waiting for the speech client, playing the clip, counting down. *)
Inductive Phase (s : State) : Prop :=
| Waiting :
    inflight s = [] -> sources s = [] -> timers s = [] ->
    isBuffering s = false ->
    (status s <> IDLE ->
     isAudioPlaying (playbackState s) = false
     /\ timeRemainingInInterval (playbackState s) = 0) ->
    Phase s
| Synthesising (c : Call) :
    status s <> IDLE ->
    inflight s = [c] -> 1 <= call_hours c ->
    sources s = [] -> timers s = [] ->
    isBuffering s = true ->
    isAudioPlaying (playbackState s) = false ->
    timeRemainingInInterval (playbackState s) = 0 ->
    truthy (lastError (playbackState s)) = false ->
    Phase s
| Sounding (src : Source) :
    status s <> IDLE ->
    inflight s = [] ->
    sources s = [src] -> 1 <= source_hours src ->
    timers s = [] ->
    isBuffering s = false ->
    isAudioPlaying (playbackState s) = true ->
    truthy (lastError (playbackState s)) = false ->
    Phase s
| Counting (t : Handle) :
    status s <> IDLE ->
    inflight s = [] -> sources s = [] ->
    timers s = [t] -> intervalTimerRef s = Some t ->
    isBuffering s = false ->
    isAudioPlaying (playbackState s) = false ->
    0 < timeRemainingInInterval (playbackState s) ->
    truthy (lastError (playbackState s)) = false ->
    Phase s.

(** What holds of a session that was never reset while a call was pending
    or a clip was playing. *)
Record Cycle (s : State) : Prop := {
  cyc_hours : 1 <= frequencyHours (settings s) <= 5;
  cyc_quotes : status s <> IDLE -> quotes s <> [];
  cyc_phase : Phase s
}.

(** A trace in which the user resets only when no call is pending and no
    source is left. *)
Fixpoint orderly (s : State) (tr : list Event) : Prop :=
  match tr with
  | [] => True
  | ev :: tr' =>
      (ev = Reset -> inflight s = [] /\ sources s = [])
      /\ match step s ev with
         | Some s' => orderly s' tr'
         | None => True
         end
  end.

(** The commands that put a session into [PLAYING]. *)
Definition startsPlayback (ev : Event) : bool :=
  match ev with
  | Start | PauseResume => true
  | _ => false
  end.

(** A trace in which the user neither starts nor resumes. *)
Definition unattended (tr : list Event) : Prop :=
  Forall (fun ev => startsPlayback ev = false) tr.

(** Timer callbacks, each with the timer that fires and the time it reads
    from the clock. *)
Definition ticks (l : list (Handle * Z)) : list Event :=
  map (fun p => Tick (fst p) (snd p)) l.

(** The state a trace leads to from the initial state. *)
Definition after (tr : list Event) : State :=
  match run initialState tr with
  | Some s => s
  | None => initialState
  end.

(** Sample inputs. *)
Definition helloWorld : jsstring := of_string "Hello world".
Definition carpeDiem : jsstring := of_string "Carpe diem".
Definition blank : jsstring := [32; 9; 160; 10]%N.

Definition oneQuote : list Event := [Form (QuoteChange 0 helloWorld)].

Definition twoQuotes : list Event :=
  [Form Increment; Form (QuoteChange 0 helloWorld);
   Form (QuoteChange 1 carpeDiem)].

Definition networkError : ApiOutcome := ApiThrows (mkError "Failed to fetch").

(** A session of two quotes, one hour apart: the first clip ends at time
    5000 and the countdown has ticked once. *)
Definition countingDown : list Event :=
  twoQuotes ++ [Start; Effect; Settled 1 ApiAudio; Ended 2 5000; Tick 3 6000].

(** The two-quote session when the countdown after the second clip is
    about to expire. *)
Definition lastQuoteCountdown : list Event :=
  countingDown ++ [Tick 3 3605000; Effect; Settled 4 ApiAudio;
                   Ended 5 3700000; Tick 6 3701000].

(** A session that is reset while its first call is pending and started
    again at once; the first call is then fulfilled and its clip starts,
    and the call of the second session is rejected. *)
Definition staleClip : list Event :=
  twoQuotes ++ [Start; Effect; Reset; Start; Effect;
                Settled 1 ApiAudio; Settled 2 networkError].

(** The same session, paused twenty seconds into the countdown. *)
Definition pausedCountdown : list Event :=
  countingDown ++ [Tick 3 25000; PauseResume].


(** The needle of the [catch] block of [generateSpeech]. *)
Definition apiKeyNeedle : jsstring := of_string "API key".

(** What every reachable state keeps besides [Inv]: the bounds of the
    form, the hours carried by pending closures, a non-negative countdown,
    the shape of a recorded error, the single timer, and the tie between
    the quotes of the session and the settings. *)
Record Kept (s : State) : Prop := {
  k_count : length (manualQuotes (settings s)) = quoteCount (settings s);
  k_range : (1 <= quoteCount (settings s) <= 20)%nat;
  k_hours : 1 <= frequencyHours (settings s) <= 5;
  k_calls : Forall (fun c => 1 <= call_hours c <= 5
                             /\ trim (call_text c) <> [])
                   (inflight s);
  k_sources : Forall (fun k => 1 <= source_hours k <= 5) (sources s);
  k_time : 0 <= timeRemainingInInterval (playbackState s);
  k_error : forall m, lastError (playbackState s) = Some m ->
            m <> [] /\ includes apiKeyNeedle m = false
            /\ status s <> PLAYING /\ isBuffering s = false;
  k_timer : timers s = [] \/
            exists t, timers s = [t] /\ intervalTimerRef s = Some t;
  k_idle : status s = IDLE -> isBuffering s = false /\ quotes s = [];
  k_quotes : quotes s = [] \/
             map text (quotes s) = validQuotes (settings s)
}.

(** Settings as the form can produce them. *)
Definition formSettings (st : AppSettings) : Prop :=
  length (manualQuotes st) = quoteCount st
  /\ (1 <= quoteCount st <= 20)%nat
  /\ 1 <= frequencyHours st <= 5.

(** A session of one quote whose first call is rejected. *)
Definition failedOnce : list Event :=
  oneQuote ++ [Start; Effect; Settled 1 networkError].

(** * Properties *)

Arguments canEnd : simpl never.

(** ** Arithmetic and list facts *)

Lemma ceilDiv_spec (x : Z) :
  1000 * (ceilDiv x 1000 - 1) < x <= 1000 * ceilDiv x 1000.
Proof.
  unfold ceilDiv.
  pose proof (Z.div_mod (- x) 1000 ltac:(lia)).
  pose proof (Z.mod_pos_bound (- x) 1000 ltac:(lia)).
  lia.
Qed.

Lemma ceilDiv_nonpos (x : Z) : ceilDiv x 1000 <= 0 <-> x <= 0.
Proof. pose proof (ceilDiv_spec x). lia. Qed.

Lemma interval_seconds (hours : Z) :
  hours * 3600 * 1000 / 1000 = hours * 3600.
Proof. apply Z.div_mul. lia. Qed.

Lemma length_toQuotes (l : list jsstring) (i : nat) :
  length (toQuotes i l) = length l.
Proof.
  revert i. induction l as [|t l IH]; intros i; simpl; [reflexivity|].
  now rewrite IH.
Qed.

Lemma nth_error_toQuotes (l : list jsstring) (i k : nat) (q : Quote) :
  nth_error (toQuotes i l) k = Some q ->
  nth_error l k = Some (text q) /\ id q = of_string "q-" ++ of_nat (i + k).
Proof.
  revert i k. induction l as [|t l IH]; intros i [|k]; simpl; try discriminate.
  - intros [= <-]. simpl. now rewrite Nat.add_0_r.
  - intros H. apply IH in H. now rewrite Nat.add_succ_r.
Qed.

Lemma validQuotes_none (st : AppSettings) :
  (forall q, In q (manualQuotes st) -> trim q = []) -> validQuotes st = [].
Proof.
  unfold validQuotes. induction (manualQuotes st) as [|q l IH]; intros H.
  - reflexivity.
  - simpl. rewrite (H q (or_introl eq_refl)). simpl.
    apply IH. intros q' Hq'. apply H. now right.
Qed.

Lemma isValid_validQuotes (st : AppSettings) :
  isValid st = negb (Nat.eqb (length (validQuotes st)) 0).
Proof.
  unfold isValid, validQuotes.
  induction (manualQuotes st) as [|q l IH]; [reflexivity|].
  simpl. destruct (trim q); simpl; [exact IH|reflexivity].
Qed.

Lemma findCall_In (c : Handle) (l : list Call) (k : Call) :
  findCall c l = Some k -> In k l /\ call_id k = c.
Proof.
  unfold findCall. intros H. apply find_some in H. destruct H as [H1 H2].
  apply Pos.eqb_eq in H2. now split.
Qed.

Lemma findSource_In (h : Handle) (l : list Source) (k : Source) :
  findSource h l = Some k -> In k l /\ source_id k = h.
Proof.
  unfold findSource. intros H. apply find_some in H. destruct H as [H1 H2].
  apply Pos.eqb_eq in H2. now split.
Qed.

Lemma timerArmed_In (t : Handle) (l : list Handle) :
  timerArmed t l = true -> In t l.
Proof.
  unfold timerArmed. intros H. apply existsb_exists in H.
  destruct H as [x [Hx E]]. apply Pos.eqb_eq in E. now subst.
Qed.

Lemma removeCall_incl (c : Handle) (l : list Call) : incl (removeCall c l) l.
Proof. intros x Hx. unfold removeCall in Hx. now apply filter_In in Hx. Qed.

(** ** Invariants of the reachable states *)

Lemma Inv_initial : Inv initialState.
Proof. split; simpl; auto; try discriminate; try lia; congruence. Qed.

Ltac inv_start H :=
  destruct H as [Hpl Hpa Hst Hq Hf Hi Ht Hx];
  match goal with
  | s : State |- _ => destruct s as [xst xse xqs xps xib xar xir xnp xip xcs xfl xso xti xnh]
  end; simpl in *.

Lemma Inv_form (s : State) (st : AppSettings) : Inv s -> Inv (set_settings st s).
Proof. intros H. inv_start H. split; simpl; auto. Qed.

Lemma Inv_handleStart (s : State) : Inv s -> Inv (handleStart s).
Proof.
  intros H. unfold handleStart.
  destruct (Nat.eqb (length (validQuotes (settings s))) 0) eqn:E; [exact H|].
  apply Nat.eqb_neq in E.
  inv_start H. split; simpl; rewrite ?length_toQuotes; auto; try discriminate;
    try lia.
Qed.

Lemma Inv_stopAll (s : State) : Inv s -> Inv (stopAll s).
Proof.
  intros H. unfold stopAll. inv_start H.
  destruct xar, xir; simpl;
    split; simpl; auto;
    try (intros E; destruct (Hf E) as (? & ? & ?);
         unfold stopSource, clearInterval; subst; now auto).
Qed.

Lemma Inv_handleReset (s : State) : Inv s -> Inv (handleReset s).
Proof.
  intros H. apply Inv_stopAll in H. unfold handleReset.
  inv_start H. split; simpl; auto; try discriminate; congruence.
Qed.

Lemma Inv_handlePauseResume (s : State) : Inv s -> Inv (handlePauseResume s).
Proof.
  intros H. unfold handlePauseResume.
  destruct (status s) eqn:Es; try exact H;
    destruct (isPausedRef s) eqn:Ep; simpl;
    try destruct (truthy (lastError (playbackState s)));
    inv_start H; subst; split; simpl; auto; try discriminate.
Qed.

Lemma Inv_effect (s : State) : Inv s -> Inv (effect s).
Proof.
  intros H. unfold effect.
  destruct (trigger s) eqn:Et; [|exact H].
  unfold playCurrentQuote.
  destruct (isPausedRef s); [exact H|].
  destruct (nth_error (quotes s) _) as [q|] eqn:En; [|exact H].
  unfold trigger in Et. repeat (apply andb_prop in Et; destruct Et as [Et ?]).
  assert (Hne : quotes s <> []).
  { intros E. rewrite E in En. now destruct (currentQuoteIndex _). }
  inv_start H. split; simpl; auto.
  - intros E. apply Ht in Hne. lia.
  - now destruct (isAudioPlaying xps).
Qed.

Lemma Inv_resolved (s : State) (c : Call) :
  Inv s -> In c (inflight s) -> Inv (resolved c s).
Proof.
  intros H Hin. unfold resolved.
  assert (Hpos : totalQuotes (playbackState s) <> 0%nat).
  { intros E. destruct H. destruct (inv_fresh0 E) as (E1 & _).
    rewrite E1 in Hin. contradiction. }
  inv_start H. destruct xip; split; simpl; auto; try contradiction.
Qed.

Lemma Inv_rejected (s : State) (c : Call) (e : JSError) :
  Inv s -> In c (inflight s) -> Inv (rejected c e s).
Proof.
  intros H Hin. unfold rejected.
  assert (Hpos : totalQuotes (playbackState s) <> 0%nat).
  { intros E. destruct H. destruct (inv_fresh0 E) as (E1 & _).
    rewrite E1 in Hin. contradiction. }
  inv_start H. split; simpl; auto; try discriminate; try contradiction.
Qed.

Lemma Inv_onended (s : State) (src : Source) (now : Z) :
  Inv s -> In src (sources s) -> Inv (onended src now s).
Proof.
  intros H Hin. unfold onended, scheduleNextPlayback.
  assert (Hpos : totalQuotes (playbackState s) <> 0%nat).
  { intros E. destruct H. destruct (inv_fresh0 E) as (_ & E1 & _).
    rewrite E1 in Hin. contradiction. }
  inv_start H. destruct xir; split; simpl; auto;
    try contradiction.
Qed.

Lemma Inv_tick (s : State) (t : Handle) (now : Z) :
  Inv s -> In t (timers s) -> Inv (tick now s).
Proof.
  intros H Hin. unfold tick.
  assert (Hpos : totalQuotes (playbackState s) <> 0%nat).
  { intros E. destruct H. destruct (inv_fresh0 E) as (_ & _ & E1).
    rewrite E1 in Hin. contradiction. }
  inv_start H. destruct xip; [split; simpl; auto|].
  destruct (_ <=? 0); [destruct xir|];
    split; simpl; auto; try contradiction;
    intros _; apply Nat.mod_upper_bound; assumption.
Qed.

Lemma Inv_step (s s' : State) (ev : Event) :
  Inv s -> step s ev = Some s' -> Inv s'.
Proof.
  intros H. destruct ev as [e| | | | |c o|h now|t now]; simpl.
  - destruct (_ && _); intros [= <-]. now apply Inv_form.
  - destruct (AppStatus_eqb _ _); intros [= <-]. now apply Inv_handleStart.
  - destruct (AppStatus_eqb _ _); intros [= <-]. now apply Inv_handleReset.
  - destruct (AppStatus_eqb _ _); intros [= <-].
    now apply Inv_handlePauseResume.
  - intros [= <-]. now apply Inv_effect.
  - destruct (findCall c (inflight s)) as [k|] eqn:E; [|discriminate].
    apply findCall_In in E. destruct E as [E _].
    destruct (generateSpeech o); intros [= <-].
    + now apply Inv_resolved.
    + now apply Inv_rejected.
  - destruct (findSource h (sources s)) as [k|] eqn:E; [|discriminate].
    apply findSource_In in E. destruct E as [E _].
    destruct (canEnd k (ctxSuspended s)); intros [= <-].
    now apply Inv_onended.
  - destruct (timerArmed t (timers s)) eqn:E; intros [= <-].
    apply timerArmed_In in E. now apply Inv_tick with t.
Qed.

Lemma Inv_run (tr : list Event) (s s' : State) :
  Inv s -> run s tr = Some s' -> Inv s'.
Proof.
  revert s. induction tr as [|ev tr IH]; intros s H; simpl.
  - now intros [= <-].
  - destruct (step s ev) as [s1|] eqn:E; [|discriminate].
    apply IH. now apply Inv_step with s ev.
Qed.

Lemma reachable_Inv (s : State) : reachable s -> Inv s.
Proof. intros [tr H]. apply (Inv_run tr initialState); [apply Inv_initial|exact H]. Qed.

Lemma run_app (tr1 tr2 : list Event) (s s1 : State) :
  run s tr1 = Some s1 -> run s (tr1 ++ tr2) = run s1 tr2.
Proof.
  revert s. induction tr1 as [|ev tr1 IH]; intros s; simpl.
  - now intros [= <-].
  - destruct (step s ev); [apply IH|discriminate].
Qed.

Lemma reachable_run (tr : list Event) (s s' : State) :
  reachable s -> run s tr = Some s' -> reachable s'.
Proof.
  intros [tr0 H0] H. exists (tr0 ++ tr). now rewrite (run_app _ _ _ _ H0).
Qed.

(** ** No synthesis is launched outside [PLAYING] *)

Lemma trigger_playing (s : State) : trigger s = true -> status s = PLAYING.
Proof.
  unfold trigger. intros H.
  repeat (apply andb_prop in H; destruct H as [H ?]).
  now destruct (status s).
Qed.

Lemma effect_idle (s : State) : status s <> PLAYING -> effect s = s.
Proof.
  intros H. unfold effect. destruct (trigger s) eqn:E; [|reflexivity].
  now apply trigger_playing in E.
Qed.

Lemma step_unattended (s s' : State) (ev : Event) :
  status s <> PLAYING -> startsPlayback ev = false -> step s ev = Some s' ->
  status s' <> PLAYING /\ incl (inflight s') (inflight s).
Proof.
  intros Hs Hev. destruct ev as [e| | | | |c o|h now|t now]; simpl;
    try discriminate.
  - destruct (_ && _); intros [= <-]. destruct s; simpl in *.
    split; [assumption|apply incl_refl].
  - destruct (AppStatus_eqb _ _); intros [= <-]. unfold handleReset, stopAll.
    destruct s as [xst xse xqs xps xib [a|] [i|] xnp xip xcs xfl xso xti xnh];
      simpl; split; try discriminate; apply incl_refl.
  - intros [= <-]. rewrite effect_idle by assumption.
    split; [assumption|apply incl_refl].
  - destruct (findCall c (inflight s)) as [k|]; [|discriminate].
    destruct (generateSpeech o); intros [= <-].
    + unfold resolved.
      destruct s as [xst xse xqs xps xib xar xir xnp [|] xcs xfl xso xti xnh];
        simpl in *; split; try assumption; apply removeCall_incl.
    + unfold rejected. destruct s; simpl in *.
      split; [discriminate|apply removeCall_incl].
  - destruct (findSource h (sources s)) as [k|]; [|discriminate].
    destruct (canEnd k (ctxSuspended s)); intros [= <-].
    unfold onended, scheduleNextPlayback.
    destruct s as [xst xse xqs xps xib xar [i|] xnp xip xcs xfl xso xti xnh];
      simpl in *; split; try assumption; apply incl_refl.
  - destruct (timerArmed t (timers s)); intros [= <-]. unfold tick.
    destruct s as [xst xse xqs xps xib xar [i|] xnp [|] xcs xfl xso xti xnh];
      simpl in *; try destruct (_ <=? 0); simpl;
      split; try assumption; apply incl_refl.
Qed.

Lemma run_unattended (tr : list Event) (s s' : State) :
  status s <> PLAYING -> unattended tr -> run s tr = Some s' ->
  status s' <> PLAYING /\ effect s' = s' /\ incl (inflight s') (inflight s).
Proof.
  revert s. induction tr as [|ev tr IH]; intros s Hs Hu; simpl.
  - intros [= <-]. repeat split; auto using effect_idle, incl_refl.
  - destruct (step s ev) as [s1|] eqn:E; [|discriminate].
    inversion Hu as [|? ? Hev Hu']; subst.
    destruct (step_unattended _ _ _ Hs Hev E) as [Hs1 Hi1].
    intros H. destruct (IH s1 Hs1 Hu' H) as (A & B & C).
    repeat split; auto. eapply incl_tran; eassumption.
Qed.

(** ** Start *)

(** C8. When every quote string of the settings is empty once trimmed,
    [handleStart] leaves the whole state as it is: the status stays what it
    was ([IDLE] where the form is shown), no quote list is installed, no
    field changes and no error is recorded. *)
Theorem start_without_quotes_is_noop (s : State) :
  (forall q, In q (manualQuotes (settings s)) -> trim q = []) ->
  handleStart s = s
  /\ step s Start = (if AppStatus_eqb (status s) IDLE then Some s else None).
Proof.
  intros H. assert (E : handleStart s = s).
  { unfold handleStart. now rewrite (validQuotes_none _ H). }
  split; [exact E|]. simpl. now rewrite E.
Qed.

Lemma start_without_quotes_is_noop_witness :
  let s := after [Form Increment; Form (QuoteChange 1 blank)] in
  manualQuotes (settings s) = [[]; blank]
  /\ handleStart s = s /\ step s Start = Some s.
Proof.
  split; [reflexivity|].
  apply (start_without_quotes_is_noop
           (after [Form Increment; Form (QuoteChange 1 blank)])).
  intros q [<-|[<-|[]]]; reflexivity.
Defined.

(** ** Pause and resume *)

(** C10. [handlePauseResume] in [IDLE] changes nothing: status, playback
    state, pause flag and the suspension of the audio context (and every
    other field) are left as they are. *)
Theorem pauseResume_idle_is_noop (s : State) :
  status s = IDLE -> handlePauseResume s = s.
Proof. intros H. unfold handlePauseResume. now rewrite H. Qed.

Lemma pauseResume_idle_is_noop_witness :
  handlePauseResume initialState = initialState.
Proof. apply (pauseResume_idle_is_noop initialState). reflexivity. Defined.

(** ** The countdown *)

Lemma tick_running (s : State) (now : Z) :
  isPausedRef s = false ->
  timeRemainingInInterval (playbackState (tick now s))
  = Z.max 0 (ceilDiv (nextPlayTimeRef s - now) 1000)
  /\ nextPlayTimeRef (tick now s) = nextPlayTimeRef s.
Proof.
  intros H. unfold tick. rewrite H.
  destruct (Z.max 0 _ <=? 0) eqn:E.
  - apply Z.leb_le in E.
    destruct s as [xst xse xqs xps xib xar [i|] xnp xip xcs xfl xso xti xnh];
      simpl in *; split; auto; lia.
  - destruct s; simpl; auto.
Qed.

(** C4. While the session is [PLAYING], a tick at time [now] sets the
    remaining seconds to [max 0 (ceil ((nextPlayTime - now) / 1000))],
    computed from the stored deadline, which it leaves alone, and from the
    clock; the result is the same whatever value was displayed before, so
    it is not a decrement of that value. *)
Theorem tick_recomputes_countdown_from_deadline (s : State) (now : Z) :
  reachable s -> status s = PLAYING ->
  let remainingMs := nextPlayTimeRef s - now in
  let remainingSeconds := Z.max 0 (ceilDiv remainingMs 1000) in
  timeRemainingInInterval (playbackState (tick now s)) = remainingSeconds
  /\ 1000 * (ceilDiv remainingMs 1000 - 1) < remainingMs
     <= 1000 * ceilDiv remainingMs 1000
  /\ nextPlayTimeRef (tick now s) = nextPlayTimeRef s
  /\ forall displayed : Z,
       timeRemainingInInterval
         (playbackState
            (tick now
               (set_playbackState
                  (with_timeRemainingInInterval displayed (playbackState s))
                  s)))
       = remainingSeconds.
Proof.
  intros Hr Hs. apply reachable_Inv in Hr.
  pose proof (inv_playing s Hr Hs) as Hp. cbv zeta.
  destruct (tick_running s now Hp) as [A B].
  repeat split; auto; try apply ceilDiv_spec.
  intros displayed.
  apply (tick_running
           (set_playbackState
              (with_timeRemainingInInterval displayed (playbackState s)) s)).
  now destruct s.
Qed.

Lemma run_paused_ticks (l : list (Handle * Z)) (s s' : State) :
  isPausedRef s = true -> run s (ticks l) = Some s' ->
  s' = set_nextPlayTimeRef
         (nextPlayTimeRef s + 1000 * Z.of_nat (length l)) s.
Proof.
  revert s. induction l as [|[t now] l IH]; intros s Hp;
    cbn [ticks map run step fst snd length].
  - intros [= <-]. change (Z.of_nat 0) with 0.
    rewrite Z.mul_0_r, Z.add_0_r. now destruct s.
  - destruct (timerArmed t (timers s)); [|discriminate].
    intros H. apply IH in H.
    + rewrite H. unfold tick. rewrite Hp. rewrite Nat2Z.inj_succ.
      replace (nextPlayTimeRef s + 1000 * Z.succ (Z.of_nat (length l)))
        with (nextPlayTimeRef s + 1000 + 1000 * Z.of_nat (length l)) by lia.
      now destruct s.
    + unfold tick. rewrite Hp. now destruct s.
Qed.

(** What holds of a pause on the code (the claim itself is settled by
    [late_paused_ticks_let_countdown_elapse] below).  While the session is
    [PAUSED], a tick adds exactly one period of
    1000 ms to the deadline and changes nothing else; hence after any
    number of ticks, at whatever times they fire, the playback state, and
    with it the remaining seconds, is the one the pause began with. *)
Theorem paused_ticks_freeze_countdown
    (s s' : State) (l : list (Handle * Z)) :
  reachable s -> status s = PAUSED -> run s (ticks l) = Some s' ->
  (forall now, tick now s = set_nextPlayTimeRef (nextPlayTimeRef s + 1000) s)
  /\ playbackState s' = playbackState s
  /\ timeRemainingInInterval (playbackState s')
     = timeRemainingInInterval (playbackState s)
  /\ nextPlayTimeRef s' = nextPlayTimeRef s + 1000 * Z.of_nat (length l)
  /\ status s' = PAUSED.
Proof.
  intros Hr Hs Hrun. apply reachable_Inv in Hr.
  pose proof (inv_paused s Hr Hs) as Hp.
  apply (run_paused_ticks l s s' Hp) in Hrun. subst s'.
  split; [intros now; unfold tick; now rewrite Hp|].
  destruct s; simpl in *. auto.
Qed.

Lemma paused_ticks_freeze_countdown_witness :
  let l := [(3%positive, 26000); (3%positive, 91000)] in
  let s := after pausedCountdown in
  let s' := after (pausedCountdown ++ ticks l) in
  status s = PAUSED
  /\ timeRemainingInInterval (playbackState s) = 3580
  /\ timeRemainingInInterval (playbackState s') = 3580
  /\ nextPlayTimeRef s' = nextPlayTimeRef s + 2000.
Proof.
  cbv zeta.
  assert (R : reachable (after pausedCountdown)).
  { exists pausedCountdown. vm_compute. reflexivity. }
  assert (S : status (after pausedCountdown) = PAUSED).
  { vm_compute. reflexivity. }
  assert (T : run (after pausedCountdown)
                (ticks [(3%positive, 26000); (3%positive, 91000)])
              = Some (after (pausedCountdown
                             ++ ticks [(3%positive, 26000);
                                       (3%positive, 91000)]))).
  { vm_compute. reflexivity. }
  pose proof (paused_ticks_freeze_countdown _ _ _ R S T) as (_ & _ & A & B & _).
  split; [exact S|].
  split; [vm_compute; reflexivity|].
  split; [rewrite A; vm_compute; reflexivity | exact B].
Defined.

(** C5, on the code.  A session is paused with 3580 seconds on the display
    (the last running tick was at time 25000) and the ticks of the pause
    come late, at 26000 and at 91000.  Both paused ticks leave the
    display at 3580 and push the deadline by 1000 ms each, as the first
    half of the claim says; but the deadline has moved by 2 seconds while
    the pause lasted more than 65, so after resuming the tick at 92000
    reads 3515: 65 of the 67 seconds between the two running ticks were
    taken off the countdown although the session was paused for nearly
    all of them, against the comment "so we don't skip time while paused"
    of the paused branch.  With the paused ticks on time, at 26000 and
    27000, the tick after resuming reads 3579. *)
Theorem late_paused_ticks_let_countdown_elapse :
  exists s s1 s2 s3 t2 t3 : State,
    run initialState pausedCountdown = Some s
    /\ status s = PAUSED
    /\ timeRemainingInInterval (playbackState s) = 3580
    /\ nextPlayTimeRef s = 3605000
    /\ step s (Tick 3 26000) = Some s1
    /\ timeRemainingInInterval (playbackState s1) = 3580
    /\ step s1 (Tick 3 91000) = Some s2
    /\ status s2 = PAUSED
    /\ timeRemainingInInterval (playbackState s2) = 3580
    /\ nextPlayTimeRef s2 = 3607000
    /\ run s2 [PauseResume; Tick 3 92000] = Some s3
    /\ status s3 = PLAYING
    /\ timeRemainingInInterval (playbackState s3) = 3515
    /\ run s1 [Tick 3 27000; PauseResume] = Some t2
    /\ step t2 (Tick 3 28000) = Some t3
    /\ timeRemainingInInterval (playbackState t3) = 3579.
Proof.
  do 6 eexists.
  split; [vm_compute; reflexivity|].
  do 3 (split; [vm_compute; reflexivity|]).
  split; [vm_compute; reflexivity|].
  split; [vm_compute; reflexivity|].
  split; [vm_compute; reflexivity|].
  do 3 (split; [vm_compute; reflexivity|]).
  split; [vm_compute; reflexivity|].
  do 2 (split; [vm_compute; reflexivity|]).
  split; [vm_compute; reflexivity|].
  split; vm_compute; reflexivity.
Qed.

Lemma tick_recomputes_countdown_from_deadline_witness :
  let s := after countingDown in
  status s = PLAYING
  /\ timeRemainingInInterval (playbackState s) = 3599
  /\ timeRemainingInInterval (playbackState (tick 65500 s)) = 3540.
Proof.
  cbv zeta.
  assert (R : reachable (after countingDown)).
  { exists countingDown. vm_compute. reflexivity. }
  assert (S : status (after countingDown) = PLAYING).
  { vm_compute. reflexivity. }
  pose proof (tick_recomputes_countdown_from_deadline _ 65500 R S) as (A & _).
  split; [exact S|].
  split; [vm_compute; reflexivity|].
  rewrite A. vm_compute. reflexivity.
Defined.

(** ** The index of the current quote *)

Lemma handleStart_started (s : State) :
  validQuotes (settings s) <> [] ->
  handleStart s
  = set_isPausedRef false
      (set_status PLAYING
        (set_playbackState
           {| currentQuoteIndex := 0; isAudioPlaying := false;
              timeRemainingInInterval := 0;
              totalQuotes := length (toQuotes 0 (validQuotes (settings s)));
              lastError := None |}
           (set_quotes (toQuotes 0 (validQuotes (settings s))) s))).
Proof.
  intros H. unfold handleStart.
  destruct (validQuotes (settings s)); [contradiction|reflexivity].
Qed.

Lemma tick_expired (s : State) (now : Z) :
  isPausedRef s = false ->
  Z.max 0 (ceilDiv (nextPlayTimeRef s - now) 1000) = 0 ->
  playbackState (tick now s)
  = with_timeRemainingInInterval 0
      (with_currentQuoteIndex
         ((currentQuoteIndex (playbackState s) + 1)
          mod totalQuotes (playbackState s))%nat
         (playbackState s)).
Proof.
  intros Hp H0. unfold tick. rewrite Hp, H0. simpl.
  destruct s as [xst xse xqs xps xib xar [i|] xnp xip xcs xfl xso xti xnh];
    destruct xps; reflexivity.
Qed.

(** C3. [handleStart] with at least one valid quote sets the index to 0;
    in every reachable state with a non-empty quote list the index is below
    the length of the list; and the tick at which the countdown reaches 0
    moves the index to [(index + 1) mod length], which is 0 after the last
    quote. *)
Theorem currentIndex_in_range_and_cyclic (s : State) :
  reachable s ->
  (validQuotes (settings s) <> [] ->
     currentQuoteIndex (playbackState (handleStart s)) = 0%nat
     /\ quotes (handleStart s) <> [])
  /\ (quotes s <> [] ->
      (currentQuoteIndex (playbackState s) < length (quotes s))%nat
      /\ forall now : Z,
           isPausedRef s = false ->
           Z.max 0 (ceilDiv (nextPlayTimeRef s - now) 1000) = 0 ->
           currentQuoteIndex (playbackState (tick now s))
           = ((currentQuoteIndex (playbackState s) + 1)
              mod length (quotes s))%nat
           /\ (S (currentQuoteIndex (playbackState s)) = length (quotes s) ->
               currentQuoteIndex (playbackState (tick now s)) = 0%nat)
           /\ quotes (tick now s) = quotes s).
Proof.
  intros Hr. apply reachable_Inv in Hr. split.
  - intros Hv. rewrite (handleStart_started s Hv).
    destruct s; simpl in *. split; [reflexivity|].
    destruct (validQuotes settings0); [contradiction|discriminate].
  - intros Hq.
    assert (Hlen : length (quotes s) = totalQuotes (playbackState s)).
    { destruct (inv_quotes s Hr); [contradiction|assumption]. }
    pose proof (inv_index s Hr (inv_total s Hr Hq)) as Hi.
    split; [now rewrite Hlen|].
    intros now Hp H0. rewrite (tick_expired s now Hp H0), Hlen.
    split; [now destruct (playbackState s)|].
    split.
    + intros Hlast.
      destruct (playbackState s); simpl in *.
      rewrite Nat.add_1_r, Hlast. apply Nat.Div0.mod_same.
    + unfold tick. rewrite Hp, H0. simpl.
      now destruct s as [xst xse xqs xps xib xar [i|] xnp xip xcs xfl xso xti xnh].
Qed.

Lemma currentIndex_in_range_and_cyclic_witness :
  let s := after lastQuoteCountdown in
  length (quotes s) = 2%nat
  /\ currentQuoteIndex (playbackState s) = 1%nat
  /\ currentQuoteIndex (playbackState (tick 7300000 s)) = 0%nat.
Proof.
  cbv zeta.
  assert (R : reachable (after lastQuoteCountdown)).
  { exists lastQuoteCountdown. vm_compute. reflexivity. }
  assert (Q : quotes (after lastQuoteCountdown) <> []).
  { vm_compute. discriminate. }
  assert (P : isPausedRef (after lastQuoteCountdown) = false).
  { vm_compute. reflexivity. }
  assert (Z0 : Z.max 0 (ceilDiv (nextPlayTimeRef (after lastQuoteCountdown)
                                 - 7300000) 1000) = 0).
  { vm_compute. reflexivity. }
  pose proof (currentIndex_in_range_and_cyclic _ R) as (_ & H).
  destruct (H Q) as (_ & H1). destruct (H1 7300000 P Z0) as (_ & H2 & _).
  split; [vm_compute; reflexivity|].
  split; [vm_compute; reflexivity|].
  apply H2. vm_compute. reflexivity.
Defined.

(** ** Synthesis and playback exclude each other *)

Lemma resolved_running (s : State) (c : Call) :
  isPausedRef s = false ->
  isAudioPlaying (playbackState (resolved c s)) = true
  /\ isBuffering (resolved c s) = false
  /\ audioSourceRef (resolved c s) = Some (nextHandle s)
  /\ sources (resolved c s)
     = {| source_id := nextHandle s; source_hours := call_hours c;
          source_stopped := false |}
       :: sources s.
Proof.
  intros H. unfold resolved.
  destruct s as [xst xse xqs xps xib xar xir xnp xip xcs xfl xso xti xnh].
  simpl in *. subst. simpl. auto.
Qed.

(** C9. In every reachable state at most one of [isBuffering] and
    [isAudioPlaying] holds; in particular the step that starts the clip
    of a fulfilled call sets [isAudioPlaying] and clears [isBuffering]
    together, the two updates being committed in one render. *)
Theorem synthesis_and_playback_exclusive (s : State) :
  reachable s ->
  isBuffering s && isAudioPlaying (playbackState s) = false
  /\ forall c : Call,
       findCall (call_id c) (inflight s) = Some c ->
       isPausedRef s = false ->
       exists s',
         step s (Settled (call_id c) ApiAudio) = Some s'
         /\ isAudioPlaying (playbackState s') = true
         /\ isBuffering s' = false.
Proof.
  intros Hr. split.
  - apply reachable_Inv in Hr. apply (inv_exclusive s Hr).
  - intros c Hc Hp. exists (resolved c s).
    destruct (resolved_running s c Hp) as (A & B & _).
    split; [simpl; now rewrite Hc|]. now split.
Qed.

Lemma synthesis_and_playback_exclusive_witness :
  let s := after (oneQuote ++ [Start; Effect]) in
  isBuffering s = true /\ isAudioPlaying (playbackState s) = false
  /\ exists s',
       step s (Settled 1 ApiAudio) = Some s'
       /\ isAudioPlaying (playbackState s') = true
       /\ isBuffering s' = false.
Proof.
  cbv zeta.
  assert (R : reachable (after (oneQuote ++ [Start; Effect]))).
  { exists (oneQuote ++ [Start; Effect]). vm_compute. reflexivity. }
  pose proof (synthesis_and_playback_exclusive _ R) as (A & B).
  assert (Hb : isBuffering (after (oneQuote ++ [Start; Effect])) = true).
  { vm_compute. reflexivity. }
  split; [exact Hb|].
  split; [rewrite Hb in A; exact A|].
  apply (B {| call_id := 1; call_text := helloWorld; call_hours := 1 |}).
  - vm_compute. reflexivity.
  - vm_compute. reflexivity.
Defined.

(** ** Failure of the synthesis *)

Lemma rejected_state (s : State) (c : Call) (e : JSError) :
  isBuffering (rejected c e s) = false
  /\ lastError (playbackState (rejected c e s))
     = Some (orElse (message e) (of_string "Failed to generate audio"))
  /\ status (rejected c e s) = PAUSED
  /\ isPausedRef (rejected c e s) = true
  /\ currentQuoteIndex (playbackState (rejected c e s))
     = currentQuoteIndex (playbackState s)
  /\ quotes (rejected c e s) = quotes s.
Proof. unfold rejected. destruct s; simpl. auto 10. Qed.

Lemma orElse_truthy (o : option jsstring) (d : jsstring) :
  d <> [] -> truthy (Some (orElse o d)) = true.
Proof.
  intros H. destruct o as [[|x m]|]; simpl; destruct d; try reflexivity;
    contradiction.
Qed.

Lemma filter_length_le {A : Type} (f : A -> bool) (l : list A) :
  (length (filter f l) <= length l)%nat.
Proof.
  induction l as [|x l IH]; simpl; [lia|]. destruct (f x); simpl; lia.
Qed.

Lemma step_unattended_length (s s' : State) (ev : Event) :
  status s <> PLAYING -> startsPlayback ev = false -> step s ev = Some s' ->
  (length (inflight s') <= length (inflight s))%nat.
Proof.
  intros Hs Hev. destruct ev as [e| | | | |c o|h now|t now]; simpl;
    try discriminate.
  - destruct (_ && _); intros [= <-]. now destruct s.
  - destruct (AppStatus_eqb _ _); intros [= <-]. unfold handleReset, stopAll.
    now destruct s as [xst xse xqs xps xib [a|] [i|] xnp xip xcs xfl xso xti xnh].
  - intros [= <-]. now rewrite effect_idle by assumption.
  - destruct (findCall c (inflight s)) as [k|]; [|discriminate].
    destruct (generateSpeech o); intros [= <-].
    + unfold resolved.
      destruct s as [xst xse xqs xps xib xar xir xnp [|] xcs xfl xso xti xnh];
        simpl; apply filter_length_le.
    + unfold rejected. destruct s; simpl. apply filter_length_le.
  - destruct (findSource h (sources s)) as [k|]; [|discriminate].
    destruct (canEnd k (ctxSuspended s)); intros [= <-].
    unfold onended, scheduleNextPlayback.
    now destruct s as [xst xse xqs xps xib xar [i|] xnp xip xcs xfl xso xti xnh].
  - destruct (timerArmed t (timers s)); intros [= <-]. unfold tick.
    destruct s as [xst xse xqs xps xib xar [i|] xnp [|] xcs xfl xso xti xnh];
      simpl; try destruct (_ <=? 0); simpl; lia.
Qed.

Lemma run_unattended_length (tr : list Event) (s s' : State) :
  status s <> PLAYING -> unattended tr -> run s tr = Some s' ->
  (length (inflight s') <= length (inflight s))%nat.
Proof.
  revert s. induction tr as [|ev tr IH]; intros s Hs Hu; simpl.
  - intros [= <-]. lia.
  - destruct (step s ev) as [s1|] eqn:E; [|discriminate].
    inversion Hu as [|? ? Hev Hu']; subst.
    destruct (step_unattended _ _ _ Hs Hev E) as [Hs1 _].
    pose proof (step_unattended_length _ _ _ Hs Hev E) as L1.
    intros Hrun. pose proof (IH s1 Hs1 Hu' Hrun) as L2. lia.
Qed.

Lemma removeCall_shorter (c : Handle) (l : list Call) (k : Call) :
  findCall c l = Some k -> (length (removeCall c l) < length l)%nat.
Proof.
  unfold findCall, removeCall.
  induction l as [|x l IH]; simpl; [discriminate|].
  destruct (Pos.eqb (call_id x) c); simpl.
  - intros _.
    pose proof (filter_length_le (fun k0 => negb (Pos.eqb (call_id k0) c)) l).
    lia.
  - intros H. apply IH in H. lia.
Qed.

Lemma rejected_pending (s : State) (c : Call) (e : JSError) :
  inflight (rejected c e s) = removeCall (call_id c) (inflight s)
  /\ sources (rejected c e s) = sources s
  /\ timers (rejected c e s) = timers s
  /\ nextHandle (rejected c e s) = nextHandle s.
Proof. unfold rejected. destruct s; simpl. auto. Qed.

(** C6. When the promise of [generateSpeech] is rejected with [e], the
    scheduler clears [isBuffering], records the message of [e], or
    "Failed to generate audio" when it has none, in [lastError], and sets
    the status to [PAUSED].  The failure step launches nothing: the pending
    calls are the earlier ones without the call that failed, no handle is
    issued, and sources, timers and the index are as before.  From there
    on, whatever promises settle, clips end, timers fire and effects run,
    and even if the user resets, the status never becomes [PLAYING], the
    playback effect does nothing and no call is added to the pending ones,
    as long as the user neither resumes nor starts a session. *)
Theorem synthesis_failure_pauses_without_retry
    (s : State) (c : Call) (o : ApiOutcome) (e : JSError) :
  findCall (call_id c) (inflight s) = Some c ->
  generateSpeech o = inr e ->
  exists s',
    step s (Settled (call_id c) o) = Some s'
    /\ isBuffering s' = false
    /\ lastError (playbackState s')
       = Some (orElse (message e) (of_string "Failed to generate audio"))
    /\ truthy (lastError (playbackState s')) = true
    /\ status s' = PAUSED
    /\ isPausedRef s' = true
    /\ trigger s' = false
    /\ inflight s' = removeCall (call_id c) (inflight s)
    /\ (length (inflight s') < length (inflight s))%nat
    /\ nextHandle s' = nextHandle s
    /\ sources s' = sources s
    /\ timers s' = timers s
    /\ currentQuoteIndex (playbackState s')
       = currentQuoteIndex (playbackState s)
    /\ forall (tr : list Event) (s'' : State),
         unattended tr -> run s' tr = Some s'' ->
         status s'' <> PLAYING
         /\ effect s'' = s''
         /\ incl (inflight s'') (removeCall (call_id c) (inflight s))
         /\ (length (inflight s'') < length (inflight s))%nat.
Proof.
  intros Hc Ho. exists (rejected c e s).
  destruct (rejected_state s c e) as (A & B & C & D & E & _).
  destruct (rejected_pending s c e) as (P1 & P2 & P3 & P4).
  pose proof (removeCall_shorter _ _ _ Hc) as L.
  split; [simpl; now rewrite Hc, Ho|].
  split; [exact A|]. split; [exact B|].
  split; [rewrite B; now apply orElse_truthy|].
  split; [exact C|]. split; [exact D|].
  split; [unfold trigger; now rewrite C|].
  split; [exact P1|]. split; [rewrite P1; exact L|].
  split; [exact P4|]. split; [exact P2|]. split; [exact P3|].
  split; [exact E|].
  intros tr s'' Hu Hrun.
  assert (Hs : status (rejected c e s) <> PLAYING) by (rewrite C; discriminate).
  destruct (run_unattended tr _ s'' Hs Hu Hrun) as (R1 & R2 & R3).
  pose proof (run_unattended_length tr _ s'' Hs Hu Hrun) as R4.
  rewrite P1 in R3, R4.
  split; [exact R1|]. split; [exact R2|]. split; [exact R3|]. lia.
Qed.

Lemma synthesis_failure_pauses_without_retry_witness :
  let s := after (oneQuote ++ [Start; Effect]) in
  let c := {| call_id := 1; call_text := helloWorld; call_hours := 1 |} in
  exists s',
    step s (Settled 1 (ApiThrows (mkError "Bad API key"))) = Some s'
    /\ lastError (playbackState s')
       = Some (of_string "Invalid or missing API Key.")
    /\ status s' = PAUSED
    /\ inflight s' = []
    /\ nextHandle s' = nextHandle s
    /\ forall s'',
         run s' [Effect; Reset; Form (Frequency 3); Effect] = Some s'' ->
         inflight s'' = [].
Proof.
  cbv zeta.
  destruct (synthesis_failure_pauses_without_retry
              (after (oneQuote ++ [Start; Effect]))
              {| call_id := 1; call_text := helloWorld; call_hours := 1 |}
              (ApiThrows (mkError "Bad API key"))
              (mkError "Invalid or missing API Key."))
    as (s' & A & _ & B & _ & C & _ & _ & P & _ & N & _ & _ & _ & D).
  - vm_compute. reflexivity.
  - vm_compute. reflexivity.
  - exists s'. split; [exact A|]. split; [exact B|]. split; [exact C|].
    split; [rewrite P; vm_compute; reflexivity|].
    split; [exact N|].
    intros s'' H.
    destruct (D [Effect; Reset; Form (Frequency 3); Effect] s'')
      as (_ & _ & I & _); [repeat constructor|exact H|].
    destruct (inflight s'') as [|k l]; [reflexivity|].
    exfalso. apply (I k). now left.
Defined.

(** ** Resuming *)

(** Resuming a paused session in which no clip is playing, the countdown
    is at 0 and nothing is being synthesised: the next run of the playback
    effect calls [generateSpeech] for the quote at the index, which has not
    moved. *)
Lemma resume_relaunches (s : State) (q : Quote) :
  status s = PAUSED -> isPausedRef s = true ->
  isAudioPlaying (playbackState s) = false ->
  timeRemainingInInterval (playbackState s) = 0 ->
  isBuffering s = false ->
  nth_error (quotes s) (currentQuoteIndex (playbackState s)) = Some q ->
  let s1 := handlePauseResume s in
  status s1 = PLAYING
  /\ truthy (lastError (playbackState s1)) = false
  /\ currentQuoteIndex (playbackState s1) = currentQuoteIndex (playbackState s)
  /\ trigger s1 = true
  /\ inflight (effect s1)
     = {| call_id := nextHandle s; call_text := text q;
          call_hours := frequencyHours (settings s) |} :: inflight s
  /\ isBuffering (effect s1) = true
  /\ currentQuoteIndex (playbackState (effect s1))
     = currentQuoteIndex (playbackState s).
Proof.
  intros Hs Hp Ha Ht Hb Hq. cbv zeta.
  unfold effect, trigger, playCurrentQuote, handlePauseResume.
  rewrite Hs, Hp. simpl negb. cbv iota.
  destruct s as [xst xse xqs [ix ap tr tq le] xib xar xir xnp xip xcs xfl xso xti xnh].
  simpl in *. subst.
  destruct (truthy le) eqn:El; simpl; rewrite ?El; simpl; rewrite Hq; simpl;
    repeat split; reflexivity.
Qed.





(** ** Sessions in which no reset interrupts pending work *)

Lemma Cycle_initial : Cycle initialState.
Proof.
  split; simpl; [lia|congruence|].
  apply Waiting; simpl; auto.
Qed.

Lemma formStep_hours (e : FormEvent) (st : AppSettings) :
  formEnabled e st = true ->
  1 <= frequencyHours st <= 5 -> 1 <= frequencyHours (formStep e st) <= 5.
Proof.
  destruct e as [i v| | |h]; simpl; intros He H; auto.
  - unfold syncQuotes, decrement. simpl.
    destruct (Nat.eqb _ _); [exact H|]. now destruct (Nat.ltb _ _).
  - unfold syncQuotes, increment. simpl.
    destruct (Nat.eqb _ _); [exact H|]. now destruct (Nat.ltb _ _).
  - apply andb_prop in He. destruct He as [A B].
    apply Z.leb_le in A. apply Z.leb_le in B. lia.
Qed.

Ltac cyc_start H :=
  destruct H as [Hh Hq Hph];
  match goal with
  | s : State |- _ =>
      destruct s as [xst xse xqs [ix ap rem tq le] xib xar xir xnp xip xcs xfl xso xti xnh]
  end; simpl in *.

Ltac phase_auto :=
  simpl in *; subst; simpl in *;
  first
    [ solve [apply Waiting; simpl; auto; try congruence;
             try (intros; split; auto; congruence)]
    | solve [eapply Synthesising; simpl; eauto; try congruence; try lia]
    | solve [eapply Sounding; simpl; eauto; try congruence; try lia]
    | solve [eapply Counting; simpl; eauto; try congruence; try lia] ].

Lemma Cycle_form (s : State) (e : FormEvent) :
  formEnabled e (settings s) = true ->
  Cycle s -> Cycle (set_settings (formStep e (settings s)) s).
Proof.
  intros He H. pose proof (formStep_hours e (settings s) He (cyc_hours s H)).
  cyc_start H. split; simpl; auto.
  destruct Hph; phase_auto.
Qed.

Lemma Cycle_handleStart (s : State) :
  status s = IDLE -> Cycle s -> Cycle (handleStart s).
Proof.
  intros Hs H. unfold handleStart.
  destruct (Nat.eqb (length (validQuotes (settings s))) 0) eqn:E; [exact H|].
  apply Nat.eqb_neq in E.
  assert (Hv : toQuotes 0 (validQuotes (settings s)) <> []).
  { destruct (validQuotes (settings s)); [now elim E|discriminate]. }
  cyc_start H. split; simpl; auto.
  destruct Hph; phase_auto.
Qed.

Lemma Cycle_handleReset (s : State) :
  inflight s = [] -> sources s = [] -> Cycle s -> Cycle (handleReset s).
Proof.
  intros Hi Hso H. unfold handleReset, stopAll.
  cyc_start H. subst. split; [| |destruct Hph; try discriminate];
    destruct xar, xir; simpl; auto; try congruence;
    simpl in *; subst; simpl;
    try (apply Waiting; simpl; auto; try congruence;
         try (match goal with H : _ = Some _ |- _ => injection H as -> end;
              now rewrite Pos.eqb_refl)).
Qed.

Lemma Cycle_handlePauseResume (s : State) :
  status s <> IDLE -> Cycle s -> Cycle (handlePauseResume s).
Proof.
  intros Hs H. unfold handlePauseResume.
  destruct (status s) eqn:Es; try exact H;
    destruct (isPausedRef s) eqn:Ep; simpl;
    try destruct (truthy (lastError (playbackState s))) eqn:El;
    cyc_start H; subst; (split; simpl; auto; try congruence);
    destruct Hph; phase_auto.
Qed.

Lemma Cycle_effect (s : State) : Cycle s -> Cycle (effect s).
Proof.
  intros H. unfold effect.
  destruct (trigger s) eqn:Et; [|exact H].
  unfold playCurrentQuote.
  destruct (isPausedRef s); [exact H|].
  destruct (nth_error (quotes s) _) as [q|] eqn:En; [|exact H].
  unfold trigger in Et. repeat (apply andb_prop in Et; destruct Et as [Et ?]).
  cyc_start H. split; simpl; auto.
  repeat match goal with
         | H : negb _ = true |- _ => apply negb_true_iff in H
         | H : (_ =? _) = true |- _ => apply Z.eqb_eq in H
         end.
  destruct Hph; simpl in *; subst; try discriminate; try lia.
  eapply Synthesising; simpl; eauto; try lia; now destruct xst.
Qed.

Lemma Cycle_resolved (s : State) (c : Call) :
  findCall (call_id c) (inflight s) = Some c ->
  Cycle s -> Cycle (resolved c s).
Proof.
  intros Hc H. unfold resolved.
  cyc_start H.
  destruct Hph; simpl in *; subst; try discriminate.
  unfold findCall in Hc. simpl in Hc.
  destruct (Pos.eqb (call_id c0) (call_id c)) eqn:E; [|discriminate].
  injection Hc as ->.
  destruct xip; simpl; rewrite ?E; simpl; (split; simpl; auto).
  - apply Waiting; simpl; rewrite ?E; auto.
  - eapply Sounding; simpl; rewrite ?E; simpl; eauto.
Qed.

Lemma Cycle_rejected (s : State) (c : Call) (e : JSError) :
  findCall (call_id c) (inflight s) = Some c ->
  Cycle s -> Cycle (rejected c e s).
Proof.
  intros Hc H. unfold rejected.
  cyc_start H.
  destruct Hph; simpl in *; subst; try discriminate.
  unfold findCall in Hc. simpl in Hc.
  destruct (Pos.eqb (call_id c0) (call_id c)) eqn:E; [|discriminate].
  injection Hc as ->.
  split; simpl; auto.
  apply Waiting; simpl; rewrite ?E; auto.
Qed.

Lemma Cycle_onended (s : State) (src : Source) (now : Z) :
  findSource (source_id src) (sources s) = Some src ->
  Cycle s -> Cycle (onended src now s).
Proof.
  intros Hc H. unfold onended, scheduleNextPlayback.
  cyc_start H.
  destruct Hph; simpl in *; subst; try discriminate.
  unfold findSource in Hc. simpl in Hc.
  destruct (Pos.eqb (source_id src0) (source_id src)) eqn:E; [|discriminate].
  injection Hc as ->.
  destruct xir; simpl; rewrite ?E; simpl; (split; simpl; auto);
    eapply Counting; simpl; rewrite ?E; simpl; eauto;
    rewrite interval_seconds; lia.
Qed.

Lemma Cycle_tick (s : State) (t : Handle) (now : Z) :
  timerArmed t (timers s) = true -> Cycle s -> Cycle (tick now s).
Proof.
  intros Ht H. unfold tick.
  cyc_start H.
  destruct Hph; simpl in *; subst; try discriminate.
  destruct xip; simpl.
  - split; simpl; auto. eapply Counting; simpl; eauto.
  - destruct (Z.max 0 (ceilDiv (xnp - now) 1000) <=? 0) eqn:E; simpl.
    + split; simpl; auto. apply Waiting; simpl; auto.
      now rewrite Pos.eqb_refl.
    + split; simpl; auto. apply Z.leb_gt in E.
      eapply Counting; simpl; eauto.
Qed.

Lemma Cycle_step (s s' : State) (ev : Event) :
  (ev = Reset -> inflight s = [] /\ sources s = []) ->
  Cycle s -> step s ev = Some s' -> Cycle s'.
Proof.
  intros Hev H. destruct ev as [e| | | | |c o|h now|t now]; simpl.
  - destruct (AppStatus_eqb _ _); [|intros [=]].
    destruct (formEnabled e (settings s)) eqn:E; intros [= <-].
    now apply Cycle_form.
  - destruct (AppStatus_eqb (status s) IDLE) eqn:E; intros [= <-].
    apply Cycle_handleStart; [|exact H]. now destruct (status s).
  - destruct (AppStatus_eqb _ _); intros [= <-].
    destruct (Hev eq_refl). now apply Cycle_handleReset.
  - destruct (AppStatus_eqb (status s) IDLE) eqn:E; intros [= <-].
    apply Cycle_handlePauseResume; [|exact H]. intros E'. now rewrite E' in E.
  - intros [= <-]. now apply Cycle_effect.
  - destruct (findCall c (inflight s)) as [k|] eqn:E; [|discriminate].
    destruct (findCall_In _ _ _ E) as [_ <-].
    destruct (generateSpeech o); intros [= <-].
    + now apply Cycle_resolved.
    + now apply Cycle_rejected.
  - destruct (findSource h (sources s)) as [k|] eqn:E; [|discriminate].
    destruct (findSource_In _ _ _ E) as [_ <-].
    destruct (canEnd k (ctxSuspended s)); intros [= <-].
    now apply Cycle_onended.
  - destruct (timerArmed t (timers s)) eqn:E; intros [= <-].
    now apply Cycle_tick with t.
Qed.

Lemma Cycle_run (tr : list Event) (s s' : State) :
  orderly s tr -> Cycle s -> run s tr = Some s' -> Cycle s'.
Proof.
  revert s. induction tr as [|ev tr IH]; intros s Ho H; simpl.
  - now intros [= <-].
  - destruct Ho as [Hev Ho]. destruct (step s ev) as [s1|] eqn:E; [|discriminate].
    apply IH; [exact Ho|]. now apply Cycle_step with s ev.
Qed.

(** X19. In a session that was never reset while a call was pending or a
    source was left, resuming from a pause with [lastError] set makes the
    session [PLAYING], clears [lastError] and has the playback effect call
    [generateSpeech] for the quote at the index, which has not moved. *)
Lemma resume_retries_in_orderly_sessions (tr : list Event) (s : State) :
  orderly initialState tr -> run initialState tr = Some s ->
  status s = PAUSED -> truthy (lastError (playbackState s)) = true ->
  exists q : Quote,
    nth_error (quotes s) (currentQuoteIndex (playbackState s)) = Some q
    /\ status (handlePauseResume s) = PLAYING
    /\ lastError (playbackState (handlePauseResume s)) = None
    /\ currentQuoteIndex (playbackState (effect (handlePauseResume s)))
       = currentQuoteIndex (playbackState s)
    /\ inflight (effect (handlePauseResume s))
       = [{| call_id := nextHandle s; call_text := text q;
             call_hours := frequencyHours (settings s) |}].
Proof.
  intros Ho Hrun Hs Hl.
  pose proof (Cycle_run tr _ _ Ho Cycle_initial Hrun) as Hc.
  pose proof (Inv_run tr _ _ Inv_initial Hrun) as Hi.
  assert (Hne : quotes s <> []).
  { apply (cyc_quotes s Hc). rewrite Hs. discriminate. }
  assert (Hlen : length (quotes s) = totalQuotes (playbackState s)).
  { destruct (inv_quotes s Hi); [contradiction|assumption]. }
  pose proof (inv_index s Hi (inv_total s Hi Hne)) as Hidx.
  rewrite <- Hlen in Hidx. apply nth_error_Some in Hidx.
  destruct (nth_error (quotes s) (currentQuoteIndex (playbackState s)))
    as [q|] eqn:Eq; [|contradiction].
  exists q. split; [reflexivity|].
  pose proof (inv_paused s Hi Hs) as Hp.
  assert (Hw : inflight s = [] /\ isBuffering s = false
               /\ isAudioPlaying (playbackState s) = false
               /\ timeRemainingInInterval (playbackState s) = 0).
  { destruct (cyc_phase s Hc) as [A B C D E| | |]; try congruence.
    destruct E as [E1 E2]; [rewrite Hs; discriminate|]. auto. }
  destruct Hw as (Hfl & Hb & Ha & Ht).
  destruct (resume_relaunches s q Hs Hp Ha Ht Hb Eq) as (A & _ & _ & _ & B & _ & C).
  split; [exact A|]. split.
  - unfold handlePauseResume. rewrite Hs, Hp, Hl. now destruct s.
  - split; [exact C|]. now rewrite B, Hfl.
Qed.

(** ** Reset *)

(** C1, on the code.  A session with one quote is reset while its
    [generateSpeech] call is pending.  The reset leaves the status [IDLE]
    with no timer and no source, but the pending call is still live: when
    it is fulfilled a source is started and [isAudioPlaying] is set, and
    when that clip ends a deadline is set and a timer is armed; when it
    is rejected instead the status becomes [PAUSED] with [lastError] set.
    A reset after a failure leaves [lastError] as it was. *)
Theorem reset_does_not_cancel_pending_synthesis :
  exists s0 s1 s2 s3 s4 : State,
    run initialState (oneQuote ++ [Start; Effect; Reset]) = Some s0
    /\ status s0 = IDLE /\ quotes s0 = []
    /\ timers s0 = [] /\ sources s0 = []
    /\ step s0 (Settled 1 ApiAudio) = Some s1
    /\ isAudioPlaying (playbackState s1) = true
    /\ sources s1 <> [] /\ audioSourceRef s1 <> None
    /\ step s1 (Ended 2 5000) = Some s2
    /\ nextPlayTimeRef s2 = 3605000
    /\ timeRemainingInInterval (playbackState s2) = 3600
    /\ timers s2 <> []
    /\ step s0 (Settled 1 networkError) = Some s3
    /\ status s3 = PAUSED /\ lastError (playbackState s3) <> None
    /\ run initialState (oneQuote ++ [Start; Effect; Settled 1 networkError;
                                      Reset]) = Some s4
    /\ status s4 = IDLE /\ lastError (playbackState s4) <> None.
Proof.
  do 5 eexists.
  split; [vm_compute; reflexivity|].
  do 4 (split; [vm_compute; reflexivity|]).
  split; [vm_compute; reflexivity|].
  split; [vm_compute; reflexivity|].
  do 2 (split; [vm_compute; discriminate|]).
  split; [vm_compute; reflexivity|].
  do 2 (split; [vm_compute; reflexivity|]).
  split; [vm_compute; discriminate|].
  split; [vm_compute; reflexivity|].
  split; [vm_compute; reflexivity|].
  split; [vm_compute; discriminate|].
  split; [vm_compute; reflexivity|].
  split; [vm_compute; reflexivity|vm_compute; discriminate].
Qed.

(** C7, on the code.  In the session [staleClip] the clip of the call that
    the reset left pending is playing when the call of the new session
    fails.  The session is [PAUSED] with [lastError] set; resuming makes it
    [PLAYING] and clears [lastError], but the playback effect launches
    nothing, since [isAudioPlaying] is set.  Once the stale clip has ended
    and the countdown has run out, the index has moved to 1 and the call
    that is launched is for the second quote. *)
Theorem resume_after_stale_clip_skips_retry :
  exists s s1 s2 : State,
    run initialState staleClip = Some s
    /\ status s = PAUSED
    /\ truthy (lastError (playbackState s)) = true
    /\ currentQuoteIndex (playbackState s) = 0%nat
    /\ map text (quotes s) = [helloWorld; carpeDiem]
    /\ run s [PauseResume; Effect] = Some s1
    /\ status s1 = PLAYING
    /\ lastError (playbackState s1) = None
    /\ inflight s1 = [] /\ isBuffering s1 = false
    /\ run s1 [Ended 3 9000; Effect; Tick 4 3609000; Effect] = Some s2
    /\ currentQuoteIndex (playbackState s2) = 1%nat
    /\ map call_text (inflight s2) = [carpeDiem].
Proof.
  do 3 eexists.
  split; [vm_compute; reflexivity|].
  do 4 (split; [vm_compute; reflexivity|]).
  split; [vm_compute; reflexivity|].
  do 4 (split; [vm_compute; reflexivity|]).
  split; [vm_compute; reflexivity|].
  split; vm_compute; reflexivity.
Qed.

(** ** The scenarios of the specification *)

(** One quote: the start is followed by a call for "Hello world"; once it
    is fulfilled the clip plays and the countdown reads 0. *)
Example scenario_single_quote :
  exists s1 s2 : State,
    run initialState (oneQuote ++ [Start; Effect]) = Some s1
    /\ map call_text (inflight s1) = [helloWorld]
    /\ isBuffering s1 = true
    /\ step s1 (Settled 1 ApiAudio) = Some s2
    /\ isAudioPlaying (playbackState s2) = true
    /\ timeRemainingInInterval (playbackState s2) = 0.
Proof.
  do 2 eexists.
  split; [vm_compute; reflexivity|].
  do 2 (split; [vm_compute; reflexivity|]).
  split; [vm_compute; reflexivity|].
  split; vm_compute; reflexivity.
Qed.

(** Two quotes, one hour: the end of the first clip sets the countdown to
    3600; when it has run out the index is 1 and the call is for the second
    quote. *)
Example scenario_two_quotes :
  exists s1 s2 : State,
    run initialState (twoQuotes ++ [Start; Effect; Settled 1 ApiAudio;
                                    Ended 2 5000]) = Some s1
    /\ timeRemainingInInterval (playbackState s1) = 3600
    /\ run s1 [Tick 3 6000; Tick 3 3605000; Effect] = Some s2
    /\ currentQuoteIndex (playbackState s2) = 1%nat
    /\ map call_text (inflight s2) = [carpeDiem].
Proof.
  do 2 eexists.
  split; [vm_compute; reflexivity|].
  split; [vm_compute; reflexivity|].
  split; [vm_compute; reflexivity|].
  split; vm_compute; reflexivity.
Qed.

(** A rejected credential: the session pauses with the message of the
    speech client; resuming clears it and calls for the same quote. *)
Example scenario_invalid_key :
  exists s1 s2 : State,
    run initialState (oneQuote ++ [Start; Effect;
                                   Settled 1 (ApiThrows (mkError "API key not valid"))])
    = Some s1
    /\ status s1 = PAUSED
    /\ lastError (playbackState s1) = Some (of_string "Invalid or missing API Key.")
    /\ run s1 [PauseResume; Effect] = Some s2
    /\ lastError (playbackState s2) = None
    /\ map call_text (inflight s2) = [helloWorld].
Proof.
  do 2 eexists.
  split; [vm_compute; reflexivity|].
  do 2 (split; [vm_compute; reflexivity|]).
  split; [vm_compute; reflexivity|].
  split; vm_compute; reflexivity.
Qed.

(** Pausing and resuming at once during the countdown leaves the session
    [PLAYING] with the same remaining seconds. *)
Example scenario_double_toggle :
  exists s : State,
    run (after countingDown) [PauseResume; PauseResume] = Some s
    /\ status s = PLAYING
    /\ timeRemainingInInterval (playbackState s)
       = timeRemainingInInterval (playbackState (after countingDown)).
Proof.
  eexists.
  split; [vm_compute; reflexivity|].
  split; vm_compute; reflexivity.
Qed.

(** ** What else the reachable states keep *)

Lemma eqb_nil (a : jsstring) : JSString.eqb a [] = true <-> a = [].
Proof. destruct a; simpl; split; congruence. Qed.

Lemma validQuotes_nonblank (st : AppSettings) :
  Forall (fun q => trim q <> []) (validQuotes st).
Proof.
  apply Forall_forall. intros q Hq. unfold validQuotes in Hq.
  apply filter_In in Hq. destruct Hq as [_ Hq].
  apply negb_true_iff in Hq. intros E. apply eqb_nil in E. congruence.
Qed.

Lemma map_text_toQuotes (l : list jsstring) (i : nat) :
  map text (toQuotes i l) = l.
Proof.
  revert i. induction l as [|t l IH]; intros i; simpl; [reflexivity|].
  now rewrite IH.
Qed.

Lemma Forall_filter_keep {A : Type} (P : A -> Prop) (f : A -> bool)
    (l : list A) :
  Forall P l -> Forall P (filter f l).
Proof.
  intros H. apply Forall_forall. intros x Hx. apply filter_In in Hx.
  rewrite Forall_forall in H. now apply H.
Qed.

Lemma Forall_stopSource (h : Handle) (l : list Source) :
  Forall (fun k => 1 <= source_hours k <= 5) l ->
  Forall (fun k => 1 <= source_hours k <= 5) (stopSource h l).
Proof.
  intros H. unfold stopSource. induction H as [|k l Hk Hl IH]; simpl.
  - constructor.
  - constructor; [|exact IH]. now destruct (Pos.eqb _ _).
Qed.

Lemma length_setNth (i : nat) (v : jsstring) (l : list jsstring) :
  length (setNth i v l) = length l.
Proof.
  revert i. induction l as [|x l IH]; intros [|i]; simpl; auto.
Qed.

Lemma syncQuotes_length (st : AppSettings) :
  length (manualQuotes (syncQuotes st)) = quoteCount (syncQuotes st).
Proof.
  unfold syncQuotes.
  destruct (Nat.eqb _ _) eqn:E; [now apply Nat.eqb_eq in E|].
  destruct (Nat.ltb _ _) eqn:L; simpl.
  - apply Nat.ltb_lt in L. rewrite length_app, repeat_length. lia.
  - apply Nat.ltb_ge in L. rewrite length_firstn. lia.
Qed.

Lemma syncQuotes_other (st : AppSettings) :
  quoteCount (syncQuotes st) = quoteCount st
  /\ frequencyHours (syncQuotes st) = frequencyHours st.
Proof.
  unfold syncQuotes. destruct (Nat.eqb _ _); [auto|].
  now destruct (Nat.ltb _ _).
Qed.

Lemma formStep_formSettings (e : FormEvent) (st : AppSettings) :
  formEnabled e st = true -> formSettings st -> formSettings (formStep e st).
Proof.
  unfold formSettings. intros He (A & B & C).
  destruct e as [i v| | |h]; cbn [formStep formEnabled] in *.
  - unfold handleQuoteChange, withQuotes. cbn [manualQuotes quoteCount frequencyHours].
    rewrite length_setNth. auto.
  - rewrite syncQuotes_length.
    destruct (syncQuotes_other (decrement st)) as [-> ->].
    unfold decrement, updateCount. cbn [manualQuotes quoteCount frequencyHours].
    repeat split; lia.
  - rewrite syncQuotes_length.
    destruct (syncQuotes_other (increment st)) as [-> ->].
    unfold increment, updateCount. cbn [manualQuotes quoteCount frequencyHours].
    repeat split; lia.
  - apply andb_prop in He. destruct He as [H1 H2].
    apply Z.leb_le in H1. apply Z.leb_le in H2.
    unfold handleFrequency. cbn [manualQuotes quoteCount frequencyHours]. auto.
Qed.

Lemma rethrow_no_needle (e : JSError) (m : jsstring) :
  message (rethrow e) = Some m -> includes apiKeyNeedle m = false.
Proof.
  unfold rethrow. destruct (message e) as [m0|] eqn:E.
  - destruct (includes (of_string "API key") m0) eqn:I.
    + intros [= <-]. vm_compute. reflexivity.
    + rewrite E. now intros [= <-].
  - rewrite E. discriminate.
Qed.

Lemma generateSpeech_no_needle (o : ApiOutcome) (e : JSError) (m : jsstring) :
  generateSpeech o = inr e -> message e = Some m ->
  includes apiKeyNeedle m = false.
Proof.
  destruct o as [| |e0]; simpl; [discriminate| |];
    intros [= <-]; apply rethrow_no_needle.
Qed.

Lemma orElse_no_needle (o : option jsstring) :
  (forall m, o = Some m -> includes apiKeyNeedle m = false) ->
  orElse o (of_string "Failed to generate audio") <> []
  /\ includes apiKeyNeedle (orElse o (of_string "Failed to generate audio"))
     = false.
Proof.
  intros H. destruct o as [[|c m]|]; simpl orElse.
  - split; [discriminate|vm_compute; reflexivity].
  - split; [discriminate|now apply H].
  - split; [discriminate|vm_compute; reflexivity].
Qed.

Lemma clearInterval_held (h : Handle) (l : list Handle) :
  l = [] \/ (exists t, l = [t] /\ Some h = Some t) ->
  clearInterval h l = [].
Proof.
  intros [->|(t & -> & [= <-])]; [reflexivity|].
  unfold clearInterval. simpl. now rewrite Pos.eqb_refl.
Qed.

Lemma Kept_initial : Kept initialState.
Proof.
  split; simpl; auto; try lia; try discriminate.
Qed.

Ltac kept_start H :=
  destruct H as [Kc Kr Kh Kca Kso Kt Ke Kti Ki Kq];
  match goal with
  | s : State |- _ =>
      destruct s as [xst xse xqs [ix ap rem tq le] xib xar xir xnp xip xcs xfl xso xti xnh]
  end; simpl in *.

Lemma Kept_form (s : State) (e : FormEvent) :
  status s = IDLE -> formEnabled e (settings s) = true ->
  Kept s -> Kept (set_settings (formStep e (settings s)) s).
Proof.
  intros Hs He H.
  destruct (formStep_formSettings e (settings s) He) as (A & B & C).
  { destruct H. repeat split; auto; lia. }
  kept_start H. destruct (Ki Hs) as [-> ->].
  split; simpl; auto.
Qed.

Lemma Kept_handleStart (s : State) : Kept s -> Kept (handleStart s).
Proof.
  intros H. unfold handleStart.
  destruct (Nat.eqb (length (validQuotes (settings s))) 0) eqn:E; [exact H|].
  kept_start H. split; simpl; auto; try lia; try discriminate.
  right. apply map_text_toQuotes.
Qed.

Lemma Kept_stopAll (s : State) : Kept s -> Kept (stopAll s).
Proof.
  intros H. unfold stopAll. kept_start H.
  destruct xar, xir; simpl; split; simpl; auto using Forall_stopSource;
    try (intros m Hm; destruct (Ke m Hm) as (? & ? & ? & ?); now repeat split);
    try (intros Hi; destruct (Ki Hi); now auto);
    try (left; now apply clearInterval_held).
Qed.

Lemma Kept_handleReset (s : State) : Kept s -> Kept (handleReset s).
Proof.
  intros H. apply Kept_stopAll in H. unfold handleReset.
  assert (Hb : isBuffering (stopAll s) = false).
  { unfold stopAll.
    now destruct s as [xst xse xqs xps xib [a|] [i|] xnp xip xcs xfl xso xti xnh]. }
  kept_start H. split; simpl; auto.
  intros m Hm. destruct (Ke m Hm) as (? & ? & ? & ?). repeat split; auto.
  discriminate.
Qed.

Lemma Kept_handlePauseResume (s : State) : Kept s -> Kept (handlePauseResume s).
Proof.
  intros H. unfold handlePauseResume.
  destruct (status s) eqn:Es; try exact H;
    destruct (isPausedRef s) eqn:Ep; simpl;
    try destruct (truthy (lastError (playbackState s))) eqn:El;
    kept_start H; subst; split; simpl; auto; try discriminate;
    try (intros m Hm; destruct (Ke m Hm) as (? & ? & ? & ?);
         repeat split; auto; discriminate);
    try (intros m Hm; subst; destruct (Ke m eq_refl) as (? & _);
         destruct m; [contradiction|discriminate]).
Qed.

Lemma Kept_effect (s : State) : Kept s -> Kept (effect s).
Proof.
  intros H. unfold effect.
  destruct (trigger s) eqn:Et; [|exact H].
  unfold playCurrentQuote.
  destruct (isPausedRef s); [exact H|].
  destruct (nth_error (quotes s) _) as [q|] eqn:En; [|exact H].
  apply trigger_playing in Et.
  assert (Hq : trim (text q) <> []).
  { destruct (k_quotes s H) as [E|E].
    - rewrite E in En. now destruct (currentQuoteIndex _).
    - pose proof (validQuotes_nonblank (settings s)) as F.
      rewrite <- E in F. rewrite Forall_forall in F. apply F.
      apply in_map. eapply nth_error_In; eassumption. }
  kept_start H. subst. split; simpl; auto; try discriminate.
Qed.

Lemma Kept_resolved (s : State) (c : Call) :
  In c (inflight s) -> Kept s -> Kept (resolved c s).
Proof.
  intros Hc H. unfold resolved.
  assert (Hh : 1 <= call_hours c <= 5).
  { pose proof (k_calls s H) as F. rewrite Forall_forall in F.
    now destruct (F c Hc). }
  kept_start H. destruct xip; simpl; split; simpl; auto;
    try (apply Forall_cons; assumption);
    try (apply Forall_filter_keep; assumption);
    try (intros m Hm; destruct (Ke m Hm) as (? & ? & ? & ?); now repeat split);
    try (intros Hi; destruct (Ki Hi); now split).
Qed.

Lemma Kept_rejected (s : State) (c : Call) (e : JSError) :
  (forall m, message e = Some m -> includes apiKeyNeedle m = false) ->
  Kept s -> Kept (rejected c e s).
Proof.
  intros He H. unfold rejected.
  destruct (orElse_no_needle (message e) He) as [A B].
  kept_start H. split; simpl; auto; try discriminate;
    try (apply Forall_filter_keep; assumption).
  intros m [= <-]. repeat split; auto. discriminate.
Qed.

Lemma Kept_onended (s : State) (src : Source) (now : Z) :
  In src (sources s) -> Kept s -> Kept (onended src now s).
Proof.
  intros Hc H. unfold onended, scheduleNextPlayback.
  assert (Hh : 1 <= source_hours src <= 5).
  { pose proof (k_sources s H) as F. rewrite Forall_forall in F.
    now apply F. }
  kept_start H. destruct xir as [t0|]; simpl; split; simpl; auto;
    try (apply Forall_filter_keep; assumption);
    try (rewrite interval_seconds; lia);
    try (intros Hi; destruct (Ki Hi); now split);
    try (intros m Hm; destruct (Ke m Hm) as (? & ? & ? & ?); now repeat split);
    try (right; eexists; split; [|reflexivity];
         first [now rewrite clearInterval_held
               |destruct Kti as [->|(t & _ & [=])]; reflexivity]).
Qed.

Lemma Kept_tick (s : State) (now : Z) : Kept s -> Kept (tick now s).
Proof.
  intros H. unfold tick.
  kept_start H. destruct xip; [split; simpl; auto|].
  destruct (_ <=? 0); [destruct xir as [t0|]|];
    split; simpl; auto; try lia;
    try (left; now apply clearInterval_held).
Qed.

Lemma Kept_step (s s' : State) (ev : Event) :
  Kept s -> step s ev = Some s' -> Kept s'.
Proof.
  intros H. destruct ev as [e| | | | |c o|h now|t now]; simpl.
  - destruct (AppStatus_eqb (status s) IDLE) eqn:Es; [|intros [=]].
    destruct (formEnabled e (settings s)) eqn:E; intros [= <-].
    apply Kept_form; auto. now destruct (status s).
  - destruct (AppStatus_eqb _ _); intros [= <-]. now apply Kept_handleStart.
  - destruct (AppStatus_eqb _ _); intros [= <-]. now apply Kept_handleReset.
  - destruct (AppStatus_eqb _ _); intros [= <-].
    now apply Kept_handlePauseResume.
  - intros [= <-]. now apply Kept_effect.
  - destruct (findCall c (inflight s)) as [k|] eqn:E; [|discriminate].
    apply findCall_In in E. destruct E as [E _].
    destruct (generateSpeech o) as [u|e] eqn:G; intros [= <-].
    + now apply Kept_resolved.
    + apply Kept_rejected; [|exact H].
      intros m. now apply generateSpeech_no_needle with o.
  - destruct (findSource h (sources s)) as [k|] eqn:E; [|discriminate].
    apply findSource_In in E. destruct E as [E _].
    destruct (canEnd k (ctxSuspended s)); intros [= <-].
    now apply Kept_onended.
  - destruct (timerArmed t (timers s)) eqn:E; intros [= <-].
    now apply Kept_tick.
Qed.

Lemma Kept_run (tr : list Event) (s s' : State) :
  Kept s -> run s tr = Some s' -> Kept s'.
Proof.
  revert s. induction tr as [|ev tr IH]; intros s H; simpl.
  - now intros [= <-].
  - destruct (step s ev) as [s1|] eqn:E; [|discriminate].
    apply IH. now apply Kept_step with s ev.
Qed.

Lemma reachable_Kept (s : State) : reachable s -> Kept s.
Proof.
  intros [tr H]. apply (Kept_run tr initialState); [apply Kept_initial|exact H].
Qed.

(** ** The settings form *)

(** X1. In every reachable state the settings are ones the form can
    produce: as many quote fields as [quoteCount], between 1 and 20 of
    them, and an interval of 1 to 5 hours. *)
Theorem settings_within_form_bounds (s : State) :
  reachable s ->
  length (manualQuotes (settings s)) = quoteCount (settings s)
  /\ (1 <= quoteCount (settings s) <= 20)%nat
  /\ 1 <= frequencyHours (settings s) <= 5.
Proof.
  intros Hr. apply reachable_Kept in Hr.
  split; [apply (k_count s Hr)|]. split; [apply (k_range s Hr)|].
  apply (k_hours s Hr).
Qed.

Lemma settings_within_form_bounds_witness :
  let s := after (repeat (Form Increment) 25 ++ [Form (Frequency 5)]) in
  length (manualQuotes (settings s)) = 20%nat
  /\ quoteCount (settings s) = 20%nat
  /\ frequencyHours (settings s) = 5.
Proof.
  cbv zeta.
  assert (R : reachable (after (repeat (Form Increment) 25
                                ++ [Form (Frequency 5)]))).
  { exists (repeat (Form Increment) 25 ++ [Form (Frequency 5)]).
    vm_compute. reflexivity. }
  pose proof (settings_within_form_bounds _ R) as (A & _ & _).
  split; [rewrite A; vm_compute; reflexivity|].
  split; vm_compute; reflexivity.
Defined.

(** X2. Resizing the list of quote fields keeps what was typed: after the
    synchronisation the list has [quoteCount] entries, each the entry that
    was at this place before, or the empty string where there was none. *)
Theorem syncQuotes_keeps_typed_quotes (st : AppSettings) (i : nat) :
  (i < quoteCount st)%nat ->
  length (manualQuotes (syncQuotes st)) = quoteCount st
  /\ nth_error (manualQuotes (syncQuotes st)) i
     = Some (nth i (manualQuotes st) [])
  /\ quoteCount (syncQuotes st) = quoteCount st
  /\ frequencyHours (syncQuotes st) = frequencyHours st.
Proof.
  intros Hi. destruct (syncQuotes_other st) as [A B].
  split; [rewrite syncQuotes_length; exact A|].
  split; [|now split].
  unfold syncQuotes.
  destruct (Nat.eqb _ _) eqn:E.
  - apply Nat.eqb_eq in E. apply nth_error_nth'. lia.
  - destruct (Nat.ltb _ _) eqn:L; cbn [manualQuotes withQuotes].
    + apply Nat.ltb_lt in L.
      destruct (Nat.lt_ge_cases i (length (manualQuotes st))) as [Hlt|Hge].
      * rewrite nth_error_app1 by exact Hlt. now apply nth_error_nth'.
      * rewrite nth_error_app2 by exact Hge.
        rewrite (nth_overflow _ _ Hge).
        rewrite nth_error_repeat by lia. reflexivity.
    + apply Nat.ltb_ge in L. rewrite nth_error_firstn.
      replace (i <? quoteCount st)%nat with true
        by (symmetry; now apply Nat.ltb_lt).
      apply nth_error_nth'. lia.
Qed.

Lemma syncQuotes_keeps_typed_quotes_witness :
  let st := {| quoteCount := 3; manualQuotes := [helloWorld];
               frequencyHours := 2 |} in
  length (manualQuotes (syncQuotes st)) = 3%nat
  /\ nth_error (manualQuotes (syncQuotes st)) 0 = Some helloWorld
  /\ nth_error (manualQuotes (syncQuotes st)) 2 = Some [].
Proof.
  cbv zeta.
  pose proof (syncQuotes_keeps_typed_quotes
                {| quoteCount := 3; manualQuotes := [helloWorld];
                   frequencyHours := 2 |} 0 ltac:(simpl; lia)) as (A & B & _).
  pose proof (syncQuotes_keeps_typed_quotes
                {| quoteCount := 3; manualQuotes := [helloWorld];
                   frequencyHours := 2 |} 2 ltac:(simpl; lia)) as (_ & C & _).
  split; [exact A|]. split; [exact B|exact C].
Defined.

Lemma nth_error_setNth (l : list jsstring) (i j : nat) (v : jsstring) :
  (i < length l)%nat ->
  nth_error (setNth i v l) j
  = if Nat.eqb j i then Some v else nth_error l j.
Proof.
  revert i j. induction l as [|x l IH]; intros i j Hi; simpl in Hi; [lia|].
  destruct i as [|i], j as [|j]; simpl; try reflexivity.
  apply IH. lia.
Qed.

(** X3. Editing one quote field stores the new value there and leaves the
    other fields, their number and the interval as they were. *)
Theorem handleQuoteChange_updates_one_field
    (st : AppSettings) (index : nat) (value : jsstring) :
  (index < length (manualQuotes st))%nat ->
  nth_error (manualQuotes (handleQuoteChange index value st)) index
  = Some value
  /\ (forall j, j <> index ->
        nth_error (manualQuotes (handleQuoteChange index value st)) j
        = nth_error (manualQuotes st) j)
  /\ length (manualQuotes (handleQuoteChange index value st))
     = length (manualQuotes st)
  /\ quoteCount (handleQuoteChange index value st) = quoteCount st
  /\ frequencyHours (handleQuoteChange index value st) = frequencyHours st.
Proof.
  intros Hi. unfold handleQuoteChange, withQuotes.
  cbn [manualQuotes quoteCount frequencyHours].
  split; [rewrite (nth_error_setNth _ _ _ _ Hi); now rewrite Nat.eqb_refl|].
  split; [|split; [apply length_setNth|now split]].
  intros j Hj. rewrite (nth_error_setNth _ _ _ _ Hi).
  apply Nat.eqb_neq in Hj. now rewrite Hj.
Qed.

Lemma handleQuoteChange_updates_one_field_witness :
  let st := {| quoteCount := 2; manualQuotes := [helloWorld; []];
               frequencyHours := 1 |} in
  nth_error (manualQuotes (handleQuoteChange 1 carpeDiem st)) 1
  = Some carpeDiem
  /\ nth_error (manualQuotes (handleQuoteChange 1 carpeDiem st)) 0
     = Some helloWorld.
Proof.
  cbv zeta.
  pose proof (handleQuoteChange_updates_one_field
                {| quoteCount := 2; manualQuotes := [helloWorld; []];
                   frequencyHours := 1 |} 1 carpeDiem
                ltac:(simpl; lia)) as (A & B & _).
  split; [exact A|]. rewrite (B 0%nat) by discriminate. reflexivity.
Defined.

(** X4. The start button is enabled exactly when [handleStart] starts a
    session: for an idle state, [isValid] holds if and only if the status
    after [handleStart] is [PLAYING]. *)
Theorem start_enabled_iff_session_starts (s : State) :
  status s = IDLE ->
  (isValid (settings s) = true <-> status (handleStart s) = PLAYING).
Proof.
  intros Hs. rewrite isValid_validQuotes. unfold handleStart.
  destruct (Nat.eqb (length (validQuotes (settings s))) 0); simpl.
  - rewrite Hs. split; discriminate.
  - destruct s; simpl. split; reflexivity.
Qed.

Lemma start_enabled_iff_session_starts_witness :
  isValid (settings (after oneQuote)) = true
  /\ status (handleStart (after oneQuote)) = PLAYING
  /\ isValid (settings initialState) = false
  /\ status (handleStart initialState) = IDLE.
Proof.
  assert (S : status (after oneQuote) = IDLE) by (vm_compute; reflexivity).
  pose proof (start_enabled_iff_session_starts _ S) as [A _].
  assert (V : isValid (settings (after oneQuote)) = true)
    by (vm_compute; reflexivity).
  split; [exact V|]. split; [exact (A V)|].
  split; vm_compute; reflexivity.
Defined.

(** ** Starting a session *)

Lemma of_string_inj (a b : String.string) : of_string a = of_string b -> a = b.
Proof.
  unfold of_string. intros H.
  apply (f_equal (map Ascii.ascii_of_N)) in H.
  rewrite !map_map in H.
  rewrite (map_ext _ (fun x => x)) in H by apply Ascii.ascii_N_embedding.
  rewrite (map_ext (fun x => Ascii.ascii_of_N (Ascii.N_of_ascii x))
                   (fun x => x)) in H by apply Ascii.ascii_N_embedding.
  rewrite !map_id in H.
  apply (f_equal String.string_of_list_ascii) in H.
  now rewrite !String.string_of_list_ascii_of_string in H.
Qed.

Lemma of_nat_inj (n m : nat) : of_nat n = of_nat m -> n = m.
Proof.
  unfold of_nat. intros H. apply of_string_inj in H.
  apply (f_equal DecimalString.NilEmpty.uint_of_string) in H.
  rewrite !DecimalString.NilEmpty.usu in H. injection H as H.
  now apply DecimalNat.Unsigned.to_uint_inj.
Qed.

Lemma map_id_toQuotes (l : list jsstring) (i : nat) :
  map id (toQuotes i l)
  = map (fun k => of_string "q-" ++ of_nat k) (seq i (length l)).
Proof.
  revert i. induction l as [|t l IH]; intros i; simpl; [reflexivity|].
  now rewrite IH.
Qed.

(** X5. A started session holds exactly the non-blank quote fields, in
    their order and as typed (not trimmed); the quote at position [k] has
    the id [q-k], so the ids are pairwise distinct, and [totalQuotes] is the
    number of quotes. *)
Theorem started_quotes_mirror_valid_inputs (s : State) :
  validQuotes (settings s) <> [] ->
  map text (quotes (handleStart s)) = validQuotes (settings s)
  /\ Forall (fun q => trim (text q) <> []) (quotes (handleStart s))
  /\ (forall k q, nth_error (quotes (handleStart s)) k = Some q ->
        id q = of_string "q-" ++ of_nat k)
  /\ NoDup (map id (quotes (handleStart s)))
  /\ totalQuotes (playbackState (handleStart s))
     = length (quotes (handleStart s)).
Proof.
  intros Hv. rewrite (handleStart_started s Hv).
  assert (Eq : quotes
                 (set_isPausedRef false
                    (set_status PLAYING
                       (set_playbackState
                          {| currentQuoteIndex := 0; isAudioPlaying := false;
                             timeRemainingInInterval := 0;
                             totalQuotes :=
                               length (toQuotes 0 (validQuotes (settings s)));
                             lastError := None |}
                          (set_quotes (toQuotes 0 (validQuotes (settings s))) s))))
               = toQuotes 0 (validQuotes (settings s))) by now destruct s.
  rewrite Eq. split; [apply map_text_toQuotes|].
  split.
  { apply Forall_forall. intros q Hq.
    pose proof (validQuotes_nonblank (settings s)) as F.
    rewrite Forall_forall in F. apply F.
    rewrite <- (map_text_toQuotes (validQuotes (settings s)) 0).
    now apply in_map. }
  split.
  { intros k q Hq. now destruct (nth_error_toQuotes _ _ _ _ Hq). }
  split; [|now destruct s].
  rewrite map_id_toQuotes.
  apply NoDup_map_NoDup_ForallPairs; [|apply seq_NoDup].
  intros a b _ _ E. apply app_inv_head in E. now apply of_nat_inj.
Qed.

Lemma started_quotes_mirror_valid_inputs_witness :
  let s := after (twoQuotes ++ [Form Increment]) in
  manualQuotes (settings s) = [helloWorld; carpeDiem; []]
  /\ map text (quotes (handleStart s)) = [helloWorld; carpeDiem]
  /\ map id (quotes (handleStart s)) = [of_string "q-0"; of_string "q-1"].
Proof.
  cbv zeta.
  assert (V : validQuotes (settings (after (twoQuotes ++ [Form Increment])))
              <> []) by (vm_compute; discriminate).
  pose proof (started_quotes_mirror_valid_inputs _ V) as (A & _).
  split; [vm_compute; reflexivity|].
  split; [rewrite A; vm_compute; reflexivity|].
  vm_compute. reflexivity.
Defined.

(** X6. Right after a start from a reachable idle state the playback
    effect fires: its next run calls [generateSpeech] for the first
    non-blank quote field, with the interval of the settings. *)
Theorem start_plays_first_quote_at_once
    (s : State) (first : jsstring) (rest : list jsstring) :
  reachable s -> status s = IDLE ->
  validQuotes (settings s) = first :: rest ->
  status (handleStart s) = PLAYING
  /\ trigger (handleStart s) = true
  /\ inflight (effect (handleStart s))
     = {| call_id := nextHandle s; call_text := first;
          call_hours := frequencyHours (settings s) |} :: inflight s
  /\ isBuffering (effect (handleStart s)) = true.
Proof.
  intros Hr Hs Hv. apply reachable_Kept in Hr.
  destruct (k_idle s Hr Hs) as [Hb _].
  assert (Hne : validQuotes (settings s) <> []) by (rewrite Hv; discriminate).
  rewrite (handleStart_started s Hne), Hv.
  destruct s as [xst xse xqs xps xib xar xir xnp xip xcs xfl xso xti xnh].
  simpl in *. subst. unfold effect, trigger, playCurrentQuote. simpl.
  repeat split; reflexivity.
Qed.

Lemma start_plays_first_quote_at_once_witness :
  let s := after (twoQuotes ++ [Start; Effect; PauseResume; Reset]) in
  status s = IDLE
  /\ map call_text (inflight (effect (handleStart s)))
     = [helloWorld; helloWorld].
Proof.
  cbv zeta.
  assert (R : reachable (after (twoQuotes ++ [Start; Effect; PauseResume; Reset]))).
  { exists (twoQuotes ++ [Start; Effect; PauseResume; Reset]).
    vm_compute. reflexivity. }
  assert (S : status (after (twoQuotes ++ [Start; Effect; PauseResume; Reset]))
              = IDLE) by (vm_compute; reflexivity).
  assert (V : validQuotes
                (settings (after (twoQuotes ++ [Start; Effect; PauseResume; Reset])))
              = [helloWorld; carpeDiem]) by (vm_compute; reflexivity).
  pose proof (start_plays_first_quote_at_once _ _ _ R S V) as (_ & _ & A & _).
  split; [exact S|]. rewrite A. vm_compute. reflexivity.
Defined.

(** X7. In every reachable state the quotes of the session are the
    non-blank quote fields of the settings (or there are none), and every
    pending [generateSpeech] call was made for a non-blank text. *)
Theorem synthesis_requests_are_nonblank (s : State) :
  reachable s ->
  (quotes s = [] \/ map text (quotes s) = validQuotes (settings s))
  /\ Forall (fun q => trim (text q) <> []) (quotes s)
  /\ Forall (fun c => trim (call_text c) <> []) (inflight s).
Proof.
  intros Hr. apply reachable_Kept in Hr.
  split; [apply (k_quotes s Hr)|]. split.
  - destruct (k_quotes s Hr) as [->|E]; [constructor|].
    pose proof (validQuotes_nonblank (settings s)) as F.
    rewrite <- E in F. now rewrite Forall_map in F.
  - pose proof (k_calls s Hr) as F. rewrite Forall_forall in *.
    intros c Hc. now destruct (F c Hc).
Qed.

Lemma synthesis_requests_are_nonblank_witness :
  let s := after (twoQuotes ++ [Form Increment; Start; Effect]) in
  map text (quotes s) = [helloWorld; carpeDiem]
  /\ map call_text (inflight s) = [helloWorld]
  /\ Forall (fun c => trim (call_text c) <> []) (inflight s).
Proof.
  cbv zeta.
  assert (R : reachable (after (twoQuotes ++ [Form Increment; Start; Effect]))).
  { exists (twoQuotes ++ [Form Increment; Start; Effect]).
    vm_compute. reflexivity. }
  pose proof (synthesis_requests_are_nonblank _ R) as (_ & _ & A).
  split; [vm_compute; reflexivity|]. split; [vm_compute; reflexivity|exact A].
Defined.

(** ** The speech client and the recorded error *)

(** X8. A rejection of [generateSpeech] never carries a message that
    contains "API key".  An exception whose message contains it is
    replaced by "Invalid or missing API Key."; any other exception is
    rethrown as it is; a response without audio is rejected with "No audio
    data returned. Check API Key."; and passing the rejection through the
    [catch] block again changes nothing. *)
Theorem speech_rejection_is_normalised (o : ApiOutcome) (e : JSError) :
  generateSpeech o = inr e ->
  (forall m, message e = Some m -> includes apiKeyNeedle m = false)
  /\ rethrow e = e
  /\ (forall e0 m, o = ApiThrows e0 -> message e0 = Some m ->
        includes apiKeyNeedle m = true ->
        e = mkError "Invalid or missing API Key.")
  /\ (forall e0, o = ApiThrows e0 ->
        (forall m, message e0 = Some m -> includes apiKeyNeedle m = false) ->
        e = e0)
  /\ (o = ApiNoAudio -> e = mkError "No audio data returned. Check API Key.").
Proof.
  intros H.
  assert (A : forall m, message e = Some m -> includes apiKeyNeedle m = false).
  { intros m. now apply generateSpeech_no_needle with o. }
  split; [exact A|]. split.
  { unfold rethrow. destruct (message e) as [m|] eqn:E; [|reflexivity].
    change (of_string "API key") with apiKeyNeedle.
    now rewrite (A m eq_refl). }
  split.
  { intros e0 m -> Hm Hi. simpl in H. injection H as <-. unfold rethrow.
    rewrite Hm. change (of_string "API key") with apiKeyNeedle.
    now rewrite Hi. }
  split.
  { intros e0 -> Hn. simpl in H. injection H as <-. unfold rethrow.
    destruct (message e0) as [m|] eqn:Em; [|reflexivity].
    change (of_string "API key") with apiKeyNeedle.
    now rewrite (Hn m eq_refl). }
  intros ->. simpl in H. injection H as <-. vm_compute. reflexivity.
Qed.

Lemma speech_rejection_is_normalised_witness :
  generateSpeech (ApiThrows (mkError "API key not valid"))
  = inr (mkError "Invalid or missing API Key.")
  /\ rethrow (mkError "Invalid or missing API Key.")
     = mkError "Invalid or missing API Key."
  /\ generateSpeech networkError = inr (mkError "Failed to fetch")
  /\ generateSpeech ApiNoAudio
     = inr (mkError "No audio data returned. Check API Key.").
Proof.
  assert (G : generateSpeech (ApiThrows (mkError "API key not valid"))
              = inr (mkError "Invalid or missing API Key."))
    by (vm_compute; reflexivity).
  pose proof (speech_rejection_is_normalised _ _ G) as (_ & A & _).
  split; [exact G|]. split; [exact A|].
  destruct (generateSpeech networkError) as [u|e1] eqn:G1;
    [vm_compute in G1; discriminate|].
  pose proof (speech_rejection_is_normalised _ _ G1) as (_ & _ & _ & B & _).
  destruct (generateSpeech ApiNoAudio) as [u|e2] eqn:G2;
    [vm_compute in G2; discriminate|].
  pose proof (speech_rejection_is_normalised _ _ G2) as (_ & _ & _ & _ & C).
  split.
  - f_equal. apply (B (mkError "Failed to fetch") eq_refl).
    intros m [= <-]. vm_compute. reflexivity.
  - f_equal. apply C. reflexivity.
Defined.

(** X9. In every reachable state a recorded error is a non-empty message
    without "API key" in it, nothing is being synthesised, and the status
    is [PAUSED] or, after a reset, [IDLE].  While it is [PAUSED] the player
    is mounted and renders the error panel with its retry button, and
    neither the loading overlay nor the countdown; in [IDLE] the form is
    shown and no panel of the player is rendered. *)
Theorem recorded_error_is_shown (s : State) (m : jsstring) :
  reachable s -> lastError (playbackState s) = Some m ->
  m <> [] /\ includes apiKeyNeedle m = false
  /\ isBuffering s = false
  /\ (status s = PAUSED \/ status s = IDLE)
  /\ errorPanelRendered s = playerMounted s
  /\ loadingRendered s = false
  /\ countdownRendered s = false
  /\ (status s = PAUSED ->
      playerMounted s = true /\ errorPanelRendered s = true)
  /\ (status s = IDLE ->
      playerMounted s = false /\ errorPanelRendered s = false).
Proof.
  intros Hr Hm.
  pose proof (inv_status s (reachable_Inv s Hr)) as Hst.
  apply reachable_Kept in Hr.
  destruct (k_error s Hr m Hm) as (A & B & C & D).
  split; [exact A|]. split; [exact B|]. split; [exact D|].
  unfold errorPanelRendered, loadingRendered, countdownRendered,
    playerMounted, showError, showLoading, showCountdown.
  rewrite Hm, D. destruct m; [contradiction|]. simpl.
  rewrite !andb_false_r, andb_true_r.
  destruct (status s); try contradiction; simpl;
    repeat split; auto; discriminate.
Qed.

Lemma recorded_error_is_shown_witness :
  let s := after failedOnce in
  lastError (playbackState s) = Some (of_string "Failed to fetch")
  /\ status s = PAUSED
  /\ errorPanelRendered s = true
  /\ errorPanelRendered (after (failedOnce ++ [Reset])) = false.
Proof.
  cbv zeta.
  assert (R : reachable (after failedOnce)).
  { exists failedOnce. vm_compute. reflexivity. }
  assert (E : lastError (playbackState (after failedOnce))
              = Some (of_string "Failed to fetch"))
    by (vm_compute; reflexivity).
  assert (S : status (after failedOnce) = PAUSED) by (vm_compute; reflexivity).
  pose proof (recorded_error_is_shown _ _ R E)
    as (_ & _ & _ & _ & _ & _ & _ & A & _).
  assert (R' : reachable (after (failedOnce ++ [Reset]))).
  { exists (failedOnce ++ [Reset]). vm_compute. reflexivity. }
  assert (E' : lastError (playbackState (after (failedOnce ++ [Reset])))
               = Some (of_string "Failed to fetch"))
    by (vm_compute; reflexivity).
  pose proof (recorded_error_is_shown _ _ R' E')
    as (_ & _ & _ & _ & _ & _ & _ & _ & B).
  split; [exact E|]. split; [exact S|].
  split; [exact (proj2 (A S))|].
  apply B. vm_compute. reflexivity.
Defined.

(** ** The countdown on the screen *)

Lemma eqb_eq (a b : jsstring) : JSString.eqb a b = true <-> a = b.
Proof.
  revert b. induction a as [|x a IH]; intros [|y b]; simpl;
    try (split; [discriminate|discriminate]); [split; reflexivity|].
  rewrite andb_true_iff, N.eqb_eq, IH. split.
  - now intros [-> ->].
  - now intros [= -> ->].
Qed.

Lemma pad_two_digits (n : nat) : (n < 100)%nat -> length (pad n) = 2%nat.
Proof.
  intros H.
  assert (T : forallb (fun k => Nat.eqb (length (pad k)) 2) (seq 0 100) = true)
    by (vm_compute; reflexivity).
  rewrite forallb_forall in T. apply Nat.eqb_eq. apply T.
  apply in_seq. lia.
Qed.

Lemma pad_inj (n m : nat) :
  (n < 100)%nat -> (m < 100)%nat -> pad n = pad m -> n = m.
Proof.
  intros Hn Hm E.
  assert (T : forallb
                (fun a => forallb
                   (fun b => implb (JSString.eqb (pad a) (pad b)) (Nat.eqb a b))
                   (seq 0 100))
                (seq 0 100) = true) by (vm_compute; reflexivity).
  rewrite forallb_forall in T.
  assert (In0 : forall k, (k < 100)%nat -> In k (seq 0 100))
    by (intros k Hk; apply in_seq; lia).
  pose proof (T n (In0 n Hn)) as T1. rewrite forallb_forall in T1.
  pose proof (T1 m (In0 m Hm)) as T2.
  apply eqb_eq in E. rewrite E in T2. simpl in T2. now apply Nat.eqb_eq.
Qed.

Lemma app_inj_length {A : Type} (a b c d : list A) :
  length a = length b -> a ++ c = b ++ d -> a = b /\ c = d.
Proof.
  revert b. induction a as [|x a IH]; intros [|y b] L E; simpl in *;
    try discriminate; [now split|].
  injection E as -> E. injection L as L.
  destruct (IH b L E) as [-> ->]. now split.
Qed.

Lemma formatTime_fields (t : Z) :
  0 <= t ->
  formatTime t
  = pad (Z.to_nat (t / 3600)) ++ of_string ":"
    ++ pad (Z.to_nat (t mod 3600 / 60)) ++ of_string ":"
    ++ pad (Z.to_nat (t mod 60)).
Proof.
  intros H. unfold formatTime.
  now replace (t <? 0) with false by (symmetry; apply Z.ltb_ge; lia).
Qed.

Lemma clock_fields (t : Z) :
  0 <= t < 360000 ->
  (Z.to_nat (t / 3600) < 100)%nat
  /\ (Z.to_nat (t mod 3600 / 60) < 60)%nat
  /\ (Z.to_nat (t mod 60) < 60)%nat
  /\ Z.of_nat (Z.to_nat (t / 3600)) * 3600
     + Z.of_nat (Z.to_nat (t mod 3600 / 60)) * 60
     + Z.of_nat (Z.to_nat (t mod 60)) = t.
Proof.
  intros H.
  pose proof (Z.div_mod t 3600 ltac:(lia)).
  pose proof (Z.mod_pos_bound t 3600 ltac:(lia)).
  pose proof (Z.div_mod (t mod 3600) 60 ltac:(lia)).
  pose proof (Z.mod_pos_bound (t mod 3600) 60 ltac:(lia)).
  pose proof (Z.mod_pos_bound t 60 ltac:(lia)).
  assert (E : (t mod 3600) mod 60 = t mod 60).
  { replace 3600 with (60 * 60) by lia.
    rewrite Z.rem_mul_r by lia.
    rewrite Z.add_mod, Z.mul_comm, Z.mod_mul, Z.add_0_r by lia.
    now rewrite !Z.mod_mod by lia. }
  assert (0 <= t / 3600 < 100) by (split; [apply Z.div_pos; lia|apply Z.div_lt_upper_bound; lia]).
  assert (0 <= t mod 3600 / 60 < 60) by (split; [apply Z.div_pos; lia|apply Z.div_lt_upper_bound; lia]).
  rewrite !Z2Nat.id by lia.
  repeat split; try lia.
Qed.

(** X10. For a time of less than a hundred hours [formatTime] prints
    hours, minutes and seconds on two digits each, eight characters in
    all; the minutes and seconds are below 60 and the three fields add up
    to the time that was given. *)
Theorem formatTime_is_a_clock (t : Z) :
  0 <= t < 360000 ->
  exists h m sec : nat,
    formatTime t
    = pad h ++ of_string ":" ++ pad m ++ of_string ":" ++ pad sec
    /\ (h < 100 /\ m < 60 /\ sec < 60)%nat
    /\ Z.of_nat h * 3600 + Z.of_nat m * 60 + Z.of_nat sec = t
    /\ length (pad h) = 2%nat /\ length (pad m) = 2%nat
    /\ length (pad sec) = 2%nat
    /\ length (formatTime t) = 8%nat.
Proof.
  intros H. destruct (clock_fields t H) as (A & B & C & D).
  exists (Z.to_nat (t / 3600)), (Z.to_nat (t mod 3600 / 60)),
         (Z.to_nat (t mod 60)).
  split; [apply formatTime_fields; lia|].
  split; [auto|]. split; [exact D|].
  assert (L1 := pad_two_digits _ A).
  assert (L2 := pad_two_digits (Z.to_nat (t mod 3600 / 60)) ltac:(lia)).
  assert (L3 := pad_two_digits (Z.to_nat (t mod 60)) ltac:(lia)).
  repeat (split; [assumption|]).
  rewrite formatTime_fields by lia.
  rewrite !length_app, L1, L2, L3. reflexivity.
Qed.

Lemma formatTime_is_a_clock_witness :
  formatTime 3725 = of_string "01:02:05"
  /\ length (formatTime 3725) = 8%nat.
Proof.
  pose proof (formatTime_is_a_clock 3725 ltac:(lia))
    as (h & m & sec & _ & _ & _ & _ & _ & _ & A).
  split; [vm_compute; reflexivity|exact A].
Defined.

(** X11. Below a hundred hours two different times are never shown as the
    same string. *)
Theorem formatTime_injective (t u : Z) :
  0 <= t < 360000 -> 0 <= u < 360000 ->
  formatTime t = formatTime u -> t = u.
Proof.
  intros Ht Hu E.
  destruct (clock_fields t Ht) as (A1 & B1 & C1 & D1).
  destruct (clock_fields u Hu) as (A2 & B2 & C2 & D2).
  rewrite !formatTime_fields in E by lia.
  assert (P : forall n, (n < 100)%nat -> length (pad n) = 2%nat)
    by apply pad_two_digits.
  apply app_inj_length in E; [|rewrite !P by lia; reflexivity].
  destruct E as [E1 E]. apply app_inv_head in E.
  apply app_inj_length in E; [|rewrite !P by lia; reflexivity].
  destruct E as [E2 E]. apply app_inv_head in E.
  apply pad_inj in E1; [|lia|lia].
  apply pad_inj in E2; [|lia|lia].
  apply pad_inj in E; [|lia|lia].
  rewrite <- D1, <- D2, E1, E2, E. reflexivity.
Qed.

Lemma formatTime_injective_witness :
  formatTime 3599 <> formatTime 3600.
Proof.
  intros E.
  pose proof (formatTime_injective 3599 3600 ltac:(lia) ltac:(lia) E).
  discriminate.
Defined.

(** X12. In every reachable state the remaining seconds are not negative,
    so the player formats them by the clock arithmetic and never by the
    [totalSeconds < 0] guard of [formatTime]. *)
Theorem countdown_never_negative (s : State) :
  reachable s ->
  0 <= timeRemainingInInterval (playbackState s)
  /\ formatTime (timeRemainingInInterval (playbackState s))
     = pad (Z.to_nat (timeRemainingInInterval (playbackState s) / 3600))
       ++ of_string ":"
       ++ pad (Z.to_nat
                 (timeRemainingInInterval (playbackState s) mod 3600 / 60))
       ++ of_string ":"
       ++ pad (Z.to_nat (timeRemainingInInterval (playbackState s) mod 60)).
Proof.
  intros Hr. apply reachable_Kept in Hr. pose proof (k_time s Hr) as H.
  split; [exact H|now apply formatTime_fields].
Qed.

Lemma countdown_never_negative_witness :
  let s := after (countingDown ++ [Tick 3 9999999]) in
  timeRemainingInInterval (playbackState s) = 0
  /\ 0 <= timeRemainingInInterval
            (playbackState (after pausedCountdown)).
Proof.
  cbv zeta.
  assert (R : reachable (after pausedCountdown)).
  { exists pausedCountdown. vm_compute. reflexivity. }
  pose proof (countdown_never_negative _ R) as (A & _).
  split; [vm_compute; reflexivity|exact A].
Defined.

(** ** Timers, clips and resets *)

(** X13. In every reachable state at most one interval timer is armed,
    and it is the one [intervalTimerRef] holds; [stopAll] and [handleReset]
    therefore leave no timer armed, and when a clip ends exactly one timer,
    a new one, is armed. *)
Theorem at_most_one_timer (s : State) :
  reachable s ->
  (timers s = [] \/ exists t, timers s = [t] /\ intervalTimerRef s = Some t)
  /\ timers (stopAll s) = []
  /\ timers (handleReset s) = []
  /\ forall (src : Source) (now : Z),
       timers (onended src now s) = [nextHandle s]
       /\ intervalTimerRef (onended src now s) = Some (nextHandle s).
Proof.
  intros Hr. apply reachable_Kept in Hr. pose proof (k_timer s Hr) as H.
  split; [exact H|].
  assert (A : timers (stopAll s) = []).
  { unfold stopAll.
    destruct s as [xst xse xqs xps xib [a|] [i|] xnp xip xcs xfl xso xti xnh];
      simpl in *; try (now apply clearInterval_held);
      destruct H as [->|(t & _ & [=])]; reflexivity. }
  split; [exact A|]. split.
  - unfold handleReset. now destruct (stopAll s).
  - intros src now. unfold onended, scheduleNextPlayback.
    destruct s as [xst xse xqs xps xib xar [i|] xnp xip xcs xfl xso xti xnh];
      simpl in *.
    + rewrite clearInterval_held by exact H. now split.
    + destruct H as [->|(t & _ & [=])]. now split.
Qed.

Lemma at_most_one_timer_witness :
  let s := after pausedCountdown in
  timers s = [3%positive] /\ timers (handleReset s) = [].
Proof.
  cbv zeta.
  assert (R : reachable (after pausedCountdown)).
  { exists pausedCountdown. vm_compute. reflexivity. }
  pose proof (at_most_one_timer _ R) as (_ & _ & A & _).
  split; [vm_compute; reflexivity|exact A].
Defined.

(** X14. Resetting twice is resetting once, and so is [stopAll]. *)
Theorem reset_is_idempotent (s : State) :
  stopAll (stopAll s) = stopAll s
  /\ handleReset (handleReset s) = handleReset s.
Proof.
  unfold handleReset, stopAll.
  destruct s as [xst xse xqs xps xib [a|] [i|] xnp xip xcs xfl xso xti xnh];
    simpl; split; reflexivity.
Qed.

(** X15. When a clip ends at time [now] in a reachable state, the deadline
    is set to [now] plus the interval in milliseconds and the countdown to
    the interval in seconds, between one and five hours; the clip is no
    longer playing and nothing is being synthesised. *)
Theorem clip_end_arms_countdown
    (s : State) (h : Handle) (src : Source) (now : Z) :
  reachable s -> findSource h (sources s) = Some src ->
  let s' := onended src now s in
  nextPlayTimeRef s' = now + source_hours src * 3600 * 1000
  /\ timeRemainingInInterval (playbackState s') = source_hours src * 3600
  /\ 3600 <= timeRemainingInInterval (playbackState s') <= 18000
  /\ isAudioPlaying (playbackState s') = false
  /\ isBuffering s' = false
  /\ currentQuoteIndex (playbackState s') = currentQuoteIndex (playbackState s)
  /\ status s' = status s.
Proof.
  intros Hr Hf. apply reachable_Kept in Hr.
  destruct (findSource_In _ _ _ Hf) as [Hin _].
  pose proof (k_sources s Hr) as F. rewrite Forall_forall in F.
  pose proof (F src Hin) as Hh. cbv zeta.
  unfold onended, scheduleNextPlayback.
  destruct s as [xst xse xqs xps xib xar [i|] xnp xip xcs xfl xso xti xnh];
    simpl; rewrite interval_seconds; repeat split; try reflexivity; lia.
Qed.

Lemma clip_end_arms_countdown_witness :
  let s := after (twoQuotes ++ [Form (Frequency 2); Start; Effect;
                                Settled 1 ApiAudio]) in
  let s' := onended {| source_id := 2; source_hours := 2;
                       source_stopped := false |} 5000 s in
  nextPlayTimeRef s' = 7205000
  /\ timeRemainingInInterval (playbackState s') = 7200.
Proof.
  cbv zeta.
  assert (R : reachable (after (twoQuotes ++ [Form (Frequency 2); Start;
                                              Effect; Settled 1 ApiAudio]))).
  { exists (twoQuotes ++ [Form (Frequency 2); Start; Effect;
                         Settled 1 ApiAudio]).
    vm_compute. reflexivity. }
  assert (F : findSource 2
                (sources (after (twoQuotes ++ [Form (Frequency 2); Start;
                                               Effect; Settled 1 ApiAudio])))
              = Some {| source_id := 2; source_hours := 2;
                        source_stopped := false |})
    by (vm_compute; reflexivity).
  pose proof (clip_end_arms_countdown _ _ _ 5000 R F) as (A & B & _).
  split; [exact A|exact B].
Defined.

(** ** Pausing and resuming *)

(** X16. Toggling twice from [PLAYING] in a reachable state gives the
    state back, with the audio context running: status, pause flag,
    index, countdown, deadline and everything pending are as before. *)
Theorem double_toggle_restores (s : State) :
  reachable s -> status s = PLAYING ->
  status (handlePauseResume s) = PAUSED
  /\ handlePauseResume (handlePauseResume s) = resume s
  /\ (ctxSuspended s = false ->
      handlePauseResume (handlePauseResume s) = s).
Proof.
  intros Hr Hs.
  pose proof (inv_playing s (reachable_Inv s Hr) Hs) as Hp.
  assert (He : lastError (playbackState s) = None).
  { destruct (lastError (playbackState s)) as [m|] eqn:E; [|reflexivity].
    destruct (k_error s (reachable_Kept s Hr) m E) as (_ & _ & C & _).
    contradiction. }
  unfold handlePauseResume at 2 3 5. rewrite Hs, Hp. simpl negb. cbv iota.
  destruct s as [xst xse xqs [ix ap rem tq le] xib xar xir xnp xip xcs xfl xso xti xnh].
  simpl in *. subst. split; [reflexivity|].
  split; [reflexivity|]. now intros ->.
Qed.

Lemma double_toggle_restores_witness :
  handlePauseResume (handlePauseResume (after countingDown))
  = after countingDown.
Proof.
  assert (R : reachable (after countingDown)).
  { exists countingDown. vm_compute. reflexivity. }
  assert (S : status (after countingDown) = PLAYING)
    by (vm_compute; reflexivity).
  pose proof (double_toggle_restores _ R S) as (_ & _ & A).
  apply A. vm_compute. reflexivity.
Defined.

(** ** Sessions in which no reset interrupts pending work, continued *)

(** X17. In a session that was never reset while a call was pending or a
    source was left, at most one thing is under way at any time: one
    pending call, or one clip, or one countdown timer. *)
Theorem orderly_sessions_do_one_thing (tr : list Event) (s : State) :
  orderly initialState tr -> run initialState tr = Some s ->
  (length (inflight s) + length (sources s) + length (timers s) <= 1)%nat
  /\ (isBuffering s = true -> length (inflight s) = 1%nat)
  /\ (sources s <> [] -> isAudioPlaying (playbackState s) = true).
Proof.
  intros Ho Hrun.
  pose proof (Cycle_run tr _ _ Ho Cycle_initial Hrun) as Hc.
  destruct (cyc_phase s Hc) as [A B C D E|c A B _ C D E _ _ _
                               |src A B C _ D E F _|t A B C D _ E F _ _];
    rewrite ?A, ?B, ?C, ?D; simpl; repeat split; auto; try congruence.
Qed.

Lemma orderly_sessions_do_one_thing_witness :
  orderly initialState lastQuoteCountdown
  /\ (length (inflight (after lastQuoteCountdown))
      + length (sources (after lastQuoteCountdown))
      + length (timers (after lastQuoteCountdown)) <= 1)%nat.
Proof.
  assert (O : orderly initialState lastQuoteCountdown).
  { vm_compute. repeat split; discriminate. }
  assert (R : run initialState lastQuoteCountdown
              = Some (after lastQuoteCountdown))
    by (vm_compute; reflexivity).
  pose proof (orderly_sessions_do_one_thing _ _ O R) as (A & _).
  split; [exact O|exact A].
Defined.

Lemma resume_retries_in_orderly_sessions_witness :
  orderly initialState failedOnce
  /\ status (handlePauseResume (after failedOnce)) = PLAYING
  /\ map call_text (inflight (effect (handlePauseResume (after failedOnce))))
     = [helloWorld].
Proof.
  assert (O : orderly initialState failedOnce).
  { vm_compute. repeat split; discriminate. }
  assert (R : run initialState failedOnce = Some (after failedOnce))
    by (vm_compute; reflexivity).
  assert (S : status (after failedOnce) = PAUSED) by (vm_compute; reflexivity).
  assert (L : truthy (lastError (playbackState (after failedOnce))) = true)
    by (vm_compute; reflexivity).
  pose proof (resume_retries_in_orderly_sessions _ _ O R S L)
    as (q & Q & A & _ & _ & B).
  split; [exact O|]. split; [exact A|].
  rewrite B. simpl. f_equal.
  assert (Q' : nth_error (quotes (after failedOnce))
                 (currentQuoteIndex (playbackState (after failedOnce)))
               = Some {| id := of_string "q-0"; text := helloWorld |})
    by (vm_compute; reflexivity).
  rewrite Q' in Q. now injection Q as <-.
Defined.

(** ** What the player shows *)

(** X18. In every reachable state with a non-empty quote list the card of
    the player shows the text of the quote at the current index, which is
    one of the quote fields of the settings, never the fallback text, and
    the badge reads a position between 1 and the number of quotes. *)
Theorem player_shows_current_quote (s : State) :
  reachable s -> quotes s <> [] ->
  exists q : Quote,
    nth_error (quotes s) (currentQuoteIndex (playbackState s)) = Some q
    /\ quoteCard (quotes s) (playbackState s) = text q
    /\ In (text q) (manualQuotes (settings s))
    /\ (1 <= fst (badge (quotes s) (playbackState s))
        <= snd (badge (quotes s) (playbackState s)))%nat.
Proof.
  intros Hr Hq.
  pose proof (reachable_Inv s Hr) as Hi.
  pose proof (reachable_Kept s Hr) as Hk.
  assert (Hlen : length (quotes s) = totalQuotes (playbackState s)).
  { destruct (inv_quotes s Hi); [contradiction|assumption]. }
  pose proof (inv_index s Hi (inv_total s Hi Hq)) as Hidx.
  rewrite <- Hlen in Hidx.
  destruct (nth_error (quotes s) (currentQuoteIndex (playbackState s)))
    as [q|] eqn:Eq; [|apply nth_error_None in Eq; lia].
  exists q. split; [reflexivity|].
  assert (Hin : In (text q) (validQuotes (settings s))).
  { destruct (k_quotes s Hk) as [E|E]; [contradiction|].
    rewrite <- E. apply in_map. eapply nth_error_In; eassumption. }
  assert (Hne : text q <> []).
  { pose proof (validQuotes_nonblank (settings s)) as F.
    rewrite Forall_forall in F. specialize (F _ Hin).
    intros E. rewrite E in F. now apply F. }
  split.
  - unfold quoteCard. rewrite Eq. simpl.
    destruct (text q); [contradiction|reflexivity].
  - split.
    + unfold validQuotes in Hin. now apply filter_In in Hin.
    + unfold badge. simpl. lia.
Qed.

Lemma player_shows_current_quote_witness :
  quoteCard (quotes (after lastQuoteCountdown))
            (playbackState (after lastQuoteCountdown)) = carpeDiem.
Proof.
  assert (R : reachable (after lastQuoteCountdown)).
  { exists lastQuoteCountdown. vm_compute. reflexivity. }
  assert (Q : quotes (after lastQuoteCountdown) <> [])
    by (vm_compute; discriminate).
  pose proof (player_shows_current_quote _ R Q) as (q & A & B & _).
  rewrite B.
  assert (A' : nth_error (quotes (after lastQuoteCountdown))
                 (currentQuoteIndex (playbackState (after lastQuoteCountdown)))
               = Some {| id := of_string "q-1"; text := carpeDiem |})
    by (vm_compute; reflexivity).
  rewrite A' in A. now injection A as <-.
Defined.

(** ** The playback effect and the tick *)

(** X20. The playback effect launches at most one call: run a second time
    on the state it produced, it does nothing, because the first run set
    [isBuffering]. *)
Theorem effect_fires_once (s : State) :
  effect (effect s) = effect s
  /\ (length (inflight (effect s)) <= S (length (inflight s)))%nat.
Proof.
  unfold effect at 2 3 4.
  destruct (trigger s) eqn:Et.
  - unfold playCurrentQuote.
    destruct (isPausedRef s) eqn:Ep.
    + split; [|lia]. unfold effect. rewrite Et. unfold playCurrentQuote.
      now rewrite Ep.
    + destruct (nth_error (quotes s) _) as [q|] eqn:En.
      * split; [|destruct s; simpl; lia].
        unfold effect, trigger.
        destruct s as [xst xse xqs xps xib xar xir xnp xip xcs xfl xso xti xnh].
        simpl. now rewrite !andb_false_r.
      * split; [|lia]. unfold effect. rewrite Et. unfold playCurrentQuote.
        now rewrite Ep, En.
  - split; [|lia]. unfold effect. now rewrite Et.
Qed.

(** X21. A tick of a running session moves on exactly when the clock has
    reached the deadline: then the countdown reads 0, the timer is cleared
    and the index advances; before the deadline the countdown stays
    positive, and the index and the timers are left alone. *)
Theorem tick_expires_exactly_at_deadline (s : State) (now : Z) :
  reachable s -> status s = PLAYING ->
  (nextPlayTimeRef s <= now ->
     timeRemainingInInterval (playbackState (tick now s)) = 0
     /\ currentQuoteIndex (playbackState (tick now s))
        = ((currentQuoteIndex (playbackState s) + 1)
           mod totalQuotes (playbackState s))%nat
     /\ timers (tick now s) = [])
  /\ (now < nextPlayTimeRef s ->
        0 < timeRemainingInInterval (playbackState (tick now s))
        /\ currentQuoteIndex (playbackState (tick now s))
           = currentQuoteIndex (playbackState s)
        /\ timers (tick now s) = timers s).
Proof.
  intros Hr Hs.
  pose proof (inv_playing s (reachable_Inv s Hr) Hs) as Hp.
  pose proof (k_timer s (reachable_Kept s Hr)) as Ht.
  pose proof (ceilDiv_nonpos (nextPlayTimeRef s - now)) as Hc.
  unfold tick. rewrite Hp. split; intros Hd.
  - replace (Z.max 0 (ceilDiv (nextPlayTimeRef s - now) 1000)) with 0 by lia.
    simpl.
    destruct s as [xst xse xqs [ix ap rem tq le] xib xar [i|] xnp xip xcs xfl xso xti xnh];
      simpl in *.
    + rewrite clearInterval_held by exact Ht. auto.
    + destruct Ht as [->|(t & _ & [=])]. auto.
  - destruct (Z.max 0 (ceilDiv (nextPlayTimeRef s - now) 1000) <=? 0) eqn:E.
    + apply Z.leb_le in E. lia.
    + apply Z.leb_gt in E. destruct s; simpl in *. auto.
Qed.

Lemma tick_expires_exactly_at_deadline_witness :
  let s := after countingDown in
  nextPlayTimeRef s = 3605000
  /\ currentQuoteIndex (playbackState (tick 3604999 s)) = 0%nat
  /\ timeRemainingInInterval (playbackState (tick 3604999 s)) = 1
  /\ currentQuoteIndex (playbackState (tick 3605000 s)) = 1%nat.
Proof.
  cbv zeta.
  assert (R : reachable (after countingDown)).
  { exists countingDown. vm_compute. reflexivity. }
  assert (S : status (after countingDown) = PLAYING)
    by (vm_compute; reflexivity).
  assert (D : nextPlayTimeRef (after countingDown) = 3605000)
    by (vm_compute; reflexivity).
  pose proof (tick_expires_exactly_at_deadline _ 3604999 R S) as (_ & A).
  pose proof (tick_expires_exactly_at_deadline _ 3605000 R S) as (B & _).
  destruct (A ltac:(rewrite D; lia)) as (_ & A2 & _).
  destruct (B ltac:(rewrite D; lia)) as (_ & B2 & _).
  split; [exact D|]. split; [rewrite A2; vm_compute; reflexivity|].
  split; [vm_compute; reflexivity|].
  rewrite B2. vm_compute. reflexivity.
Defined.

Lemma handlePauseResume_deadline (s : State) :
  nextPlayTimeRef (handlePauseResume s) = nextPlayTimeRef s.
Proof.
  unfold handlePauseResume.
  destruct s as [xst xse xqs [ix ap rem tq le] xib xar xir xnp xip xcs xfl xso xti xnh].
  simpl. destruct xst, xip, (truthy le); reflexivity.
Qed.

Lemma tick_playbackState_congr (a b : State) (na nb : Z) :
  isPausedRef a = false -> isPausedRef b = false ->
  playbackState a = playbackState b ->
  nextPlayTimeRef a - na = nextPlayTimeRef b - nb ->
  playbackState (tick na a) = playbackState (tick nb b).
Proof.
  intros Ha Hb Hp Hn. unfold tick. rewrite Ha, Hb, Hn.
  destruct (Z.max 0 (ceilDiv (nextPlayTimeRef b - nb) 1000) <=? 0).
  - destruct a as [ast ase aqs aps aib aar [ai|] anp aip acs afl aso ati anh],
             b as [bst bse bqs bps bib bar [bi|] bnp bip bcs bfl bso bti bnh];
      simpl in *; subst; reflexivity.
  - destruct a, b; simpl in *; subst; reflexivity.
Qed.

(** X22. A pause that lasts [n] ticks delays the countdown by exactly [n]
    seconds: after resuming, the tick at time [now + 1000 n] leaves the
    playback state that the tick at time [now] would have left had the
    session been resumed before those ticks. *)
Theorem pause_delays_expiry
    (s s' : State) (l : list (Handle * Z)) (now : Z) :
  reachable s -> status s = PAUSED -> run s (ticks l) = Some s' ->
  playbackState
    (tick (now + 1000 * Z.of_nat (length l)) (handlePauseResume s'))
  = playbackState (tick now (handlePauseResume s)).
Proof.
  intros Hr Hs Hrun.
  pose proof (inv_paused s (reachable_Inv s Hr) Hs) as Hp.
  apply (run_paused_ticks l s s' Hp) in Hrun. subst s'.
  apply tick_playbackState_congr.
  - unfold handlePauseResume.
    destruct s as [xst xse xqs [ix ap rem tq le] xib xar xir xnp xip xcs xfl xso xti xnh].
    simpl in *. subst. simpl. now destruct (truthy le).
  - unfold handlePauseResume. rewrite Hs, Hp. simpl.
    destruct s as [xst xse xqs [ix ap rem tq le] xib xar xir xnp xip xcs xfl xso xti xnh].
    simpl. now destruct (truthy le).
  - unfold handlePauseResume.
    destruct s as [xst xse xqs [ix ap rem tq le] xib xar xir xnp xip xcs xfl xso xti xnh].
    simpl in *. subst. simpl. now destruct (truthy le).
  - rewrite !handlePauseResume_deadline. destruct s; simpl. lia.
Qed.

Lemma pause_delays_expiry_witness :
  let s := after pausedCountdown in
  let s' := after (pausedCountdown
                   ++ ticks [(3%positive, 26000); (3%positive, 27000)]) in
  timeRemainingInInterval
    (playbackState (tick 28000 (handlePauseResume s'))) = 3579
  /\ timeRemainingInInterval
       (playbackState (tick 26000 (handlePauseResume s))) = 3579.
Proof.
  cbv zeta.
  assert (R : reachable (after pausedCountdown)).
  { exists pausedCountdown. vm_compute. reflexivity. }
  assert (S : status (after pausedCountdown) = PAUSED)
    by (vm_compute; reflexivity).
  assert (T : run (after pausedCountdown)
                (ticks [(3%positive, 26000); (3%positive, 27000)])
              = Some (after (pausedCountdown
                             ++ ticks [(3%positive, 26000);
                                       (3%positive, 27000)])))
    by (vm_compute; reflexivity).
  pose proof (pause_delays_expiry _ _ _ 26000 R S T) as A.
  assert (B : timeRemainingInInterval
                (playbackState
                   (tick 26000 (handlePauseResume (after pausedCountdown))))
              = 3579) by (vm_compute; reflexivity).
  split; [|exact B].
  exact (eq_trans (f_equal timeRemainingInInterval A) B).
Defined.

(** ** Status *)

(** X23. In every reachable state the status is [IDLE], [PLAYING] or
    [PAUSED], never [ERROR]; the pause flag is clear while [PLAYING] and
    set while [PAUSED]; and an idle state has no quotes and is not
    buffering. *)
Theorem status_and_pause_flag_agree (s : State) :
  reachable s ->
  status s <> ERROR
  /\ (status s = PLAYING -> isPausedRef s = false)
  /\ (status s = PAUSED -> isPausedRef s = true)
  /\ (status s = IDLE -> quotes s = [] /\ isBuffering s = false).
Proof.
  intros Hr.
  pose proof (reachable_Inv s Hr) as Hi.
  pose proof (reachable_Kept s Hr) as Hk.
  split; [apply (inv_status s Hi)|].
  split; [apply (inv_playing s Hi)|].
  split; [apply (inv_paused s Hi)|].
  intros Hs. destruct (k_idle s Hk Hs). now split.
Qed.

Lemma status_and_pause_flag_agree_witness :
  let s := after failedOnce in
  status s = PAUSED /\ isPausedRef s = true.
Proof.
  cbv zeta.
  assert (R : reachable (after failedOnce)).
  { exists failedOnce. vm_compute. reflexivity. }
  assert (S : status (after failedOnce) = PAUSED) by (vm_compute; reflexivity).
  pose proof (status_and_pause_flag_agree _ R) as (_ & _ & A & _).
  split; [exact S|exact (A S)].
Defined.
